(** * Token-usage dashboard (web/app.js): window selection, chart layout, hover

    A shallow embedding of [web/app.js].

    Numbers.  A JavaScript number that is finite is an exact rational [Q];
    a value that is not finite (NaN, +Infinity, -Infinity) is [None].
    Arithmetic on a non-finite operand is non-finite and comparisons with
    one are false, as for NaN; a division by zero is non-finite.  Binary
    rounding of doubles is not modelled: the arithmetic is exact.  The
    module [Binary64] adds the range of doubles (overflow to an infinity,
    underflow to zero) for [getLinearTicks], whose loop depends on it.

    State.  The global [state] object, the DOM nodes of [elements] that the
    selection code writes, the canvas and the pending [fetchUptime]
    promises are fields of one record [World]; every function of the
    script that mutates them is a function [World -> World].  A promise
    settles in a later event ([settle]), never inside the call that
    created it.

    Canvas.  The frame is the list of the calls made on the 2D context, in
    logical (CSS pixel) coordinates; the device pixel ratio only rescales
    the backing store and is left out.  Colours and fonts are left out.

    Out of scope, as in the specification: the remote sources panel, and
    the formatting of numbers and dates, which [Text] and [DrawOp] keep
    symbolic.  The markup of the page is not part of the sources: [boot]
    takes the page it runs against as an argument. *)

From Stdlib Require Import QArith Qminmax Qround Qabs Qpower Lqa.
From stdpp Require Import gmap strings list.

Local Open Scope Q_scope.

(** ** JavaScript numbers *)

Module Num.

Definition num : Type := option Q.

Definition Qlt_bool (x y : Q) : bool := negb (Qle_bool y x).

Definition lift2 (f : Q -> Q -> Q) (a b : num) : num :=
  match a, b with
  | Some x, Some y => Some (f x y)
  | _, _ => None
  end.

Definition add : num -> num -> num := lift2 Qplus.
Definition sub : num -> num -> num := lift2 Qminus.
Definition mul : num -> num -> num := lift2 Qmult.
Definition max : num -> num -> num := lift2 Qmax.

(** [a / b]: not finite when [b] is zero. *)
Definition div (a b : num) : num :=
  match a, b with
  | Some x, Some y => if Qeq_bool y 0 then None else Some (x / y)
  | _, _ => None
  end.

Definition cmp (f : Q -> Q -> bool) (a b : num) : bool :=
  match a, b with
  | Some x, Some y => f x y
  | _, _ => false
  end.

Definition ltb : num -> num -> bool := cmp Qlt_bool.
Definition leb : num -> num -> bool := cmp Qle_bool.
Definition gtb (a b : num) : bool := ltb b a.
Definition geb (a b : num) : bool := leb b a.

(** [a === 0] *)
Definition is_zero (a : num) : bool :=
  match a with Some x => Qeq_bool x 0 | None => false end.

Definition of_Q (q : Q) : num := Some q.
Definition of_nat (n : nat) : num := Some (inject_Z (Z.of_nat n)).

End Num.

Abbreviation num := Num.num.
Coercion Num.of_Q : Q >-> Num.num.

Declare Scope num_scope.
Delimit Scope num_scope with num.
Bind Scope num_scope with Num.num.
Infix "+" := Num.add : num_scope.
Infix "-" := Num.sub : num_scope.
Infix "*" := Num.mul : num_scope.
Infix "/" := Num.div : num_scope.
Infix "<?" := Num.ltb : num_scope.
Infix "<=?" := Num.leb : num_scope.
Infix ">?" := Num.gtb (at level 70) : num_scope.
Infix ">=?" := Num.geb (at level 70) : num_scope.

(** ** Bar packing (drawChart, lines 278-296) *)

Section BarPacking.

Local Open Scope num_scope.

Definition minBarWidth : num := 3.

(** [(chartWidth * 0.7) / entries.length] *)
Definition targetWidth (chartWidth : num) (len : nat) : num :=
  (chartWidth * 0.7) / Num.of_nat len.

(** [barWidth = Math.max(minBarWidth, targetWidth)] *)
Definition provisionalWidth (chartWidth : num) (len : nat) : num :=
  Num.max minBarWidth (targetWidth chartWidth len).

(** [(chartWidth - barWidth * entries.length) / (entries.length - 1)] *)
Definition provisionalGap (chartWidth : num) (len : nat) : num :=
  (chartWidth - provisionalWidth chartWidth len * Num.of_nat len)
  / (Num.of_nat len - 1).

(** The pair [(barWidth, barGap)] after the [if (entries.length > 1)]
    block. *)
Definition barPacking (chartWidth : num) (len : nat) : num * num :=
  if (1 <? len)%nat then
    let barWidth := provisionalWidth chartWidth len in
    let barGap := provisionalGap chartWidth len in
    if barGap <? 1 then
      let barGap : num := 1 in
      (Num.max minBarWidth
         ((chartWidth - barGap * (Num.of_nat len - 1)) / Num.of_nat len),
       barGap)
    else if barGap >? 10 then
      let barGap : num := 10 in
      ((chartWidth - barGap * (Num.of_nat len - 1)) / Num.of_nat len, barGap)
    else (barWidth, barGap)
  else (chartWidth, 10 : num).

End BarPacking.

(** ** Data model *)

(** One aggregation period.  [tokens] is [None] when the field is absent,
    null or NaN. *)
Record Bucket := mkBucket {
  bucket_start : string;
  tokens : num;
}.

(** [a || b] on numbers: [b] when [a] is 0 or NaN. *)
Definition orElse (a b : num) : num :=
  match a with
  | Some q => if Qeq_bool q 0 then b else a
  | None => b
  end.

(** [entry.tokens || 0] *)
Definition entryTokens (entry : Bucket) : num := orElse (tokens entry) 0.

(** ** Value scaling (drawChart, lines 298-299 and 319-323) *)

Section Scaling.

Local Open Scope num_scope.

(** [Math.max(0, ...entries.map((entry) => entry.tokens || 0))] *)
Definition maxTokens (entries : list Bucket) : num :=
  fold_left (fun acc entry => Num.max acc (entryTokens entry)) entries (0 : num).

(** [maxTokens === 0 ? 1 : maxTokens] *)
Definition maxValue (entries : list Bucket) : num :=
  if Num.is_zero (maxTokens entries) then 1 else maxTokens entries.

(** [heightPx = (tokens / maxValue) * chartHeight] *)
Definition heightPx (entries : list Bucket) (chartHeight : num) (entry : Bucket) : num :=
  (entryTokens entry / maxValue entries) * chartHeight.

Definition barHeights (entries : list Bucket) (chartHeight : num) : list num :=
  map (heightPx entries chartHeight) entries.

End Scaling.

(** ** Gridline ticks (getLinearTicks, lines 61-74) *)

(** The definitions of this section compute in exact arithmetic, like the
    rest of [drawChart]: they describe the function for a maximum whose
    intermediate results stay within the range of doubles.  The module
    [Binary64] below repeats the function with that range taken into
    account; the two agree wherever nothing overflows or underflows
    (lemma [getLinearTicks_in_range]). *)

Section Ticks.

(** [floor (log10 n)] for an integer [1 <= n < 2 ^ fuel]. *)
Fixpoint ilog10 (fuel : nat) (n : Z) : Z :=
  match fuel with
  | O => 0
  | S fuel' => if (n <? 10)%Z then 0 else (1 + ilog10 fuel' (n / 10))%Z
  end.

(** The least [k >= 1] with [d <= 10 ^ k * p], for [0 < p < d < 2 ^ fuel]. *)
Fixpoint clog10 (fuel : nat) (p d : Z) : Z :=
  match fuel with
  | O => 1
  | S fuel' => if (d <=? 10 * p)%Z then 1 else (1 + clog10 fuel' (10 * p) d)%Z
  end.

(** [Math.floor(Math.log10(q))] for a positive [q]: the integer [m] with
    [10 ^ m <= q < 10 ^ (m + 1)] (lemma [floorLog10_spec]). *)
Definition floorLog10 (q : Q) : Z :=
  let p := Qnum q in
  let d := Zpos (Qden q) in
  if (d <=? p)%Z then ilog10 (S (Z.to_nat (Z.log2 p))) (p / d)
  else (- clog10 (S (Z.to_nat (Z.log2 d))) p d)%Z.

(** [Math.pow(10, Math.floor(Math.log10(x)))] with the mathematical values
    of the logarithm and of the power (the source's are rounded); the
    logarithm of a number that is not positive is not finite. *)
Definition magnitudeOf (x : num) : num :=
  match x with
  | Some q => if Num.Qlt_bool 0 q then Some (10 ^ floorLog10 q) else None
  | None => None
  end.

Local Open Scope num_scope.

(** The 1-2-5 step of lines 63-68.  The quotient [maxTokens / 4] is exact
    and never underflows here; [Binary64.tickStep] has the underflow. *)
Definition tickStep (maxTokens : num) : num :=
  let roughStep := maxTokens / 4 in
  let magnitude := magnitudeOf (orElse roughStep 1) in
  let normalized := roughStep / magnitude in
  if normalized >=? 5 then 5 * magnitude
  else if normalized >=? 2 then 2 * magnitude
  else magnitude.

(** The [for] loop of lines 70-72, unrolled at most [fuel] times, with
    exact sums; [Binary64.ticksLoop] has the sums that overflow. *)
Fixpoint ticksLoop (fuel : nat) (limit step value : num) : list num :=
  match fuel with
  | O => []
  | S fuel' =>
      if value <=? limit then value :: ticksLoop fuel' limit step (value + step)
      else []
  end.

(** A bound on the number of times the loop test is evaluated: one more
    than the number of multiples of [step] in [0, limit]
    (lemmas [ticksLoop_spec] and [ticksLoop_stable]). *)
Definition ticksFuel (limit step : num) : nat :=
  match Num.div limit step with
  | Some r => S (S (Z.to_nat (Qfloor r)))
  | None => 1%nat
  end.

(** [getLinearTicks] in exact arithmetic: what [drawChart] draws for a
    maximum between 2^-1060 and 2^1022 (lemma [getLinearTicks_in_range]);
    [Binary64.getLinearTicks] covers the whole range of doubles. *)
Definition getLinearTicks (maxTokens : num) : list num :=
  match maxTokens with
  | None => [0 : num]
  | Some m =>
      if Qle_bool m 0 then [0 : num]
      else
        let step := tickStep maxTokens in
        let limit := maxTokens + step * 0.5 in
        ticksLoop (ticksFuel limit step) limit step 0
  end.

End Ticks.

(** ** Gridline ticks within the range of doubles *)

(** [getLinearTicks] once more, on numbers that have the range of binary64
    but not its precision: a finite value is an exact rational, a result
    at or beyond the overflow threshold is an infinity, and a result at
    or below half the smallest double is zero.  Rounding inside the range
    and the sign of zero are not modelled, and [Math.log10] and
    [Math.pow], which the language leaves to the implementation, have
    their mathematical values.  The loop takes fuel and answers [None]
    when it is still running after [fuel] iterations. *)

Module Binary64.

Inductive dbl :=
  | Fin (q : Q)
  | PosInf
  | NegInf
  | NaN.

(** [Number.MAX_VALUE], and the least magnitude that rounds to an
    infinity. *)
Definition MAX_VALUE : Q := inject_Z (2 ^ 1024 - 2 ^ 971).
Definition overflowBound : Q := inject_Z (2 ^ 1024 - 2 ^ 970).

(** [Number.MIN_VALUE], and the greatest magnitude that rounds to zero. *)
Definition MIN_VALUE : Q := 1 # (2 ^ 1074).
Definition underflowBound : Q := 1 # (2 ^ 1075).

(** The double for an exact result [q]. *)
Definition range (q : Q) : dbl :=
  if Qle_bool overflowBound q then PosInf
  else if Qle_bool q (- overflowBound) then NegInf
  else if Qle_bool (Qabs q) underflowBound then Fin 0
  else Fin q.

(** The infinity with the sign of [x * y], for [x] an infinity of sign
    [positive] and [y] finite and not zero. *)
Definition signedInf (positive : bool) (y : Q) : dbl :=
  if Bool.eqb positive (Num.Qlt_bool 0 y) then PosInf else NegInf.

Definition add (a b : dbl) : dbl :=
  match a, b with
  | Fin x, Fin y => range (x + y)
  | NaN, _ | _, NaN => NaN
  | PosInf, NegInf | NegInf, PosInf => NaN
  | PosInf, _ | _, PosInf => PosInf
  | NegInf, _ | _, NegInf => NegInf
  end.

Definition mul (a b : dbl) : dbl :=
  match a, b with
  | Fin x, Fin y => range (x * y)
  | NaN, _ | _, NaN => NaN
  | PosInf, Fin y | Fin y, PosInf =>
      if Qeq_bool y 0 then NaN else signedInf true y
  | NegInf, Fin y | Fin y, NegInf =>
      if Qeq_bool y 0 then NaN else signedInf false y
  | PosInf, PosInf | NegInf, NegInf => PosInf
  | PosInf, NegInf | NegInf, PosInf => NegInf
  end.

Definition div (a b : dbl) : dbl :=
  match a, b with
  | Fin x, Fin y =>
      if Qeq_bool y 0 then (if Qeq_bool x 0 then NaN else signedInf true x)
      else range (x / y)
  | NaN, _ | _, NaN => NaN
  | Fin _, (PosInf | NegInf) => Fin 0
  | PosInf, Fin y => if Qle_bool 0 y then PosInf else NegInf
  | NegInf, Fin y => if Qle_bool 0 y then NegInf else PosInf
  | (PosInf | NegInf), (PosInf | NegInf) => NaN
  end.

(** [a <= b] *)
Definition leb (a b : dbl) : bool :=
  match a, b with
  | NaN, _ | _, NaN => false
  | Fin x, Fin y => Qle_bool x y
  | NegInf, _ | _, PosInf => true
  | PosInf, _ | _, NegInf => false
  end.

(** [a >= b] *)
Definition geb (a b : dbl) : bool := leb b a.

(** [Number.isFinite] *)
Definition isFinite (a : dbl) : bool :=
  match a with Fin _ => true | _ => false end.

(** [a || b]: [b] when [a] is 0 or NaN. *)
Definition orElse (a b : dbl) : dbl :=
  match a with
  | Fin q => if Qeq_bool q 0 then b else a
  | NaN => b
  | _ => a
  end.

(** [Math.pow(10, Math.floor(Math.log10(x)))]: the logarithm of 0 is
    -Infinity, that of a negative number NaN. *)
Definition magnitudeOf (x : dbl) : dbl :=
  match x with
  | Fin q =>
      if Num.Qlt_bool 0 q then range (10 ^ floorLog10 q)
      else if Qeq_bool q 0 then Fin 0
      else NaN
  | PosInf => PosInf
  | NegInf | NaN => NaN
  end.

(** Lines 63-68. *)
Definition tickStep (maxTokens : dbl) : dbl :=
  let roughStep := div maxTokens (Fin 4) in
  let magnitude := magnitudeOf (orElse roughStep (Fin 1)) in
  let normalized := div roughStep magnitude in
  if geb normalized (Fin 5) then mul (Fin 5) magnitude
  else if geb normalized (Fin 2) then mul (Fin 2) magnitude
  else magnitude.

(** The [for] loop of lines 70-72; [None] when the test still holds after
    [fuel] iterations. *)
Fixpoint ticksLoop (fuel : nat) (limit step value : dbl) : option (list dbl) :=
  if leb value limit then
    match fuel with
    | O => None
    | S fuel' =>
        match ticksLoop fuel' limit step (add value step) with
        | Some ticks => Some (value :: ticks)
        | None => None
        end
    end
  else Some [].

Definition getLinearTicks (fuel : nat) (maxTokens : dbl) : option (list dbl) :=
  if negb (isFinite maxTokens) || leb maxTokens (Fin 0) then Some [Fin 0]
  else
    let step := tickStep maxTokens in
    ticksLoop fuel (add maxTokens (mul step (Fin 0.5))) step (Fin 0).

(** A range on which no intermediate result of [getLinearTicks] leaves the
    range of doubles. *)
Definition safeLow : Q := 1 # (2 ^ 1060).
Definition safeHigh : Q := inject_Z (2 ^ 1022).

(** The same number in the two models. *)
Definition ofNum (a : num) : dbl :=
  match a with Some q => Fin q | None => NaN end.

(** [a] is the finite number [q]. *)
Definition isFin (a : dbl) (q : Q) : Prop :=
  exists x : Q, a = Fin x /\ x == q.

End Binary64.

(** ** The page: data, state, DOM and network *)

(** The result for one window, as [/api/uptime] returns it.  A field is
    [None] when it is absent or null. *)
Record Dataset := mkDataset {
  window_start : option string;
  window_end : option string;
  data_granularity : option string;
  token_buckets : option (list Bucket);
  percent_any_instance : num;
  cost_total_usd : option Q;
  cost_partial : bool;
}.

(** Text shown in a DOM node.  Number and date formatting are kept
    symbolic. *)
Inductive Text :=
  | Lit (s : string)
  | Fixed (value : Q) (digits : nat)          (* value.toFixed(digits) *)
  | DateRange (startIso endIso : string)      (* formatRange *)
  | Cat (a b : Text).                         (* template concatenation *)

(** An entry of [state.barRects]. *)
Record BarRect := mkBarRect {
  index : nat;
  bar_x : num;
  bar_y : num;
  bar_width : num;
  bar_height : num;
}.

(** Calls on the 2D context, in order. *)
Inductive DrawOp :=
  | ClearRect (w h : num)
  | GridLine (y : num) (x1 : num)
  | TickLabel (value : num) (x y : num)                        (* formatTokens(value) *)
  | FillRect (x y w h : num)
  | BucketLabel (entry : Bucket) (gran : string) (x y : num)   (* formatBucketLabel *)
  | HoverLabel (tokens : num) (x y : num).                     (* formatTokens(tokens) *)

(** Completion handlers attached to a [fetchUptime] promise. *)
Inductive Handler :=
  | OnWindow (key label : string)     (* the .then/.catch of setSelectedWindow *)
  | OnCustomRange.                    (* the .then/.catch of applyCustomRange *)

(** A request to [/api/uptime] with its query parameters. *)
Record Request := mkRequest {
  query : list (string * string);
  handler : Handler;
}.

Inductive Outcome :=
  | Fulfilled (data : Dataset)
  | Rejected (message : string).      (* err.message *)

(** The [state] object. *)
Record State := mkState {
  selected : string;
  cache : gmap string Dataset;
  chartData : list Bucket;
  barRects : list BarRect;
  granularity : string;
  hoverIndex : option nat;
}.

(** The nodes of [elements] and of the button row, with the canvas. *)
Record Elements := mkElements {
  buttons : list (string * bool);  (* dataset.window, has class active *)
  windowLabel : string;
  windowRange : Text;
  uptimePct : Text;
  costUsd : Text;
  chartTitle : Text;
  chartSubtitle : Text;
  startInput : string;
  endInput : string;
  rangeBox : bool;  (* has class visible *)
  controls : bool;  (* has class show-range *)
  chartSize : Q * Q;  (* getBoundingClientRect: width, height *)
  chart : list DrawOp;  (* what the canvas shows *)
}.

(** [requests] logs every [fetchUptime] call, oldest first; [pending] holds
    the promises not settled yet; [redraws] counts the calls of
    [drawChart]. *)
Record World := mkWorld {
  state : State;
  elements : Elements;
  requests : list Request;
  pending : list Request;
  redraws : nat;
}.

Section Setters.

Definition set_selected (v : string) (r : State) : State :=
  mkState v (cache r) (chartData r) (barRects r) (granularity r) (hoverIndex r).

Definition set_cache (v : gmap string Dataset) (r : State) : State :=
  mkState (selected r) v (chartData r) (barRects r) (granularity r) (hoverIndex r).

Definition set_chartData (v : list Bucket) (r : State) : State :=
  mkState (selected r) (cache r) v (barRects r) (granularity r) (hoverIndex r).

Definition set_barRects (v : list BarRect) (r : State) : State :=
  mkState (selected r) (cache r) (chartData r) v (granularity r) (hoverIndex r).

Definition set_granularity (v : string) (r : State) : State :=
  mkState (selected r) (cache r) (chartData r) (barRects r) v (hoverIndex r).

Definition set_hoverIndex (v : option nat) (r : State) : State :=
  mkState (selected r) (cache r) (chartData r) (barRects r) (granularity r) v.

Definition set_buttons (v : list (string * bool)) (r : Elements) : Elements :=
  mkElements v (windowLabel r) (windowRange r) (uptimePct r) (costUsd r) (chartTitle r) (chartSubtitle r) (startInput r) (endInput r) (rangeBox r) (controls r) (chartSize r) (chart r).

Definition set_windowLabel (v : string) (r : Elements) : Elements :=
  mkElements (buttons r) v (windowRange r) (uptimePct r) (costUsd r) (chartTitle r) (chartSubtitle r) (startInput r) (endInput r) (rangeBox r) (controls r) (chartSize r) (chart r).

Definition set_windowRange (v : Text) (r : Elements) : Elements :=
  mkElements (buttons r) (windowLabel r) v (uptimePct r) (costUsd r) (chartTitle r) (chartSubtitle r) (startInput r) (endInput r) (rangeBox r) (controls r) (chartSize r) (chart r).

Definition set_uptimePct (v : Text) (r : Elements) : Elements :=
  mkElements (buttons r) (windowLabel r) (windowRange r) v (costUsd r) (chartTitle r) (chartSubtitle r) (startInput r) (endInput r) (rangeBox r) (controls r) (chartSize r) (chart r).

Definition set_costUsd (v : Text) (r : Elements) : Elements :=
  mkElements (buttons r) (windowLabel r) (windowRange r) (uptimePct r) v (chartTitle r) (chartSubtitle r) (startInput r) (endInput r) (rangeBox r) (controls r) (chartSize r) (chart r).

Definition set_chartTitle (v : Text) (r : Elements) : Elements :=
  mkElements (buttons r) (windowLabel r) (windowRange r) (uptimePct r) (costUsd r) v (chartSubtitle r) (startInput r) (endInput r) (rangeBox r) (controls r) (chartSize r) (chart r).

Definition set_chartSubtitle (v : Text) (r : Elements) : Elements :=
  mkElements (buttons r) (windowLabel r) (windowRange r) (uptimePct r) (costUsd r) (chartTitle r) v (startInput r) (endInput r) (rangeBox r) (controls r) (chartSize r) (chart r).

Definition set_startInput (v : string) (r : Elements) : Elements :=
  mkElements (buttons r) (windowLabel r) (windowRange r) (uptimePct r) (costUsd r) (chartTitle r) (chartSubtitle r) v (endInput r) (rangeBox r) (controls r) (chartSize r) (chart r).

Definition set_endInput (v : string) (r : Elements) : Elements :=
  mkElements (buttons r) (windowLabel r) (windowRange r) (uptimePct r) (costUsd r) (chartTitle r) (chartSubtitle r) (startInput r) v (rangeBox r) (controls r) (chartSize r) (chart r).

Definition set_rangeBox (v : bool) (r : Elements) : Elements :=
  mkElements (buttons r) (windowLabel r) (windowRange r) (uptimePct r) (costUsd r) (chartTitle r) (chartSubtitle r) (startInput r) (endInput r) v (controls r) (chartSize r) (chart r).

Definition set_controls (v : bool) (r : Elements) : Elements :=
  mkElements (buttons r) (windowLabel r) (windowRange r) (uptimePct r) (costUsd r) (chartTitle r) (chartSubtitle r) (startInput r) (endInput r) (rangeBox r) v (chartSize r) (chart r).

Definition set_chartSize (v : Q * Q) (r : Elements) : Elements :=
  mkElements (buttons r) (windowLabel r) (windowRange r) (uptimePct r) (costUsd r) (chartTitle r) (chartSubtitle r) (startInput r) (endInput r) (rangeBox r) (controls r) v (chart r).

Definition set_chart (v : list DrawOp) (r : Elements) : Elements :=
  mkElements (buttons r) (windowLabel r) (windowRange r) (uptimePct r) (costUsd r) (chartTitle r) (chartSubtitle r) (startInput r) (endInput r) (rangeBox r) (controls r) (chartSize r) v.

Definition set_state (v : State) (r : World) : World :=
  mkWorld v (elements r) (requests r) (pending r) (redraws r).

Definition set_elements (v : Elements) (r : World) : World :=
  mkWorld (state r) v (requests r) (pending r) (redraws r).

Definition set_requests (v : list Request) (r : World) : World :=
  mkWorld (state r) (elements r) v (pending r) (redraws r).

Definition set_pending (v : list Request) (r : World) : World :=
  mkWorld (state r) (elements r) (requests r) v (redraws r).

Definition set_redraws (v : nat) (r : World) : World :=
  mkWorld (state r) (elements r) (requests r) (pending r) v.

Definition on_state (f : State -> State) (w : World) : World :=
  set_state (f (state w)) w.

Definition on_elements (f : Elements -> Elements) (w : World) : World :=
  set_elements (f (elements w)) w.

End Setters.

(** ** Rendering (drawChart, lines 261-355) *)

Section DrawChart.

Local Open Scope num_scope.

Definition padding_top : num := 24.
Definition padding_right : num := 20.
Definition padding_bottom : num := 34.
Definition padding_left : num := 56.

(** [entries.length > 18 ? Math.ceil(entries.length / 12) : 1] *)
Definition labelEvery (len : nat) : nat :=
  if (18 <? len)%nat then Z.to_nat (Qceiling (inject_Z (Z.of_nat len) / 12)%Q)
  else 1%nat.

(** The gridline and the value label of one tick. *)
Definition drawTick (entries : list Bucket) (chartWidth chartHeight value : num)
  : list DrawOp :=
  let y := chartHeight - (value / maxValue entries) * chartHeight in
  [GridLine y chartWidth; TickLabel value (Some (-8)%Q) y].

(** Left edge of bar [i] inside the plot area. *)
Definition barLeft (barWidth barGap : num) (i : nat) : num :=
  Num.of_nat i * (barWidth + barGap).

(** The body of [entries.forEach] for bar [i]: what it draws. *)
Definition drawBar (entries : list Bucket) (gran : string) (hover : option nat)
    (chartHeight barWidth barGap : num) (i : nat) (entry : Bucket)
  : list DrawOp :=
  let tokens := entryTokens entry in
  let x := barLeft barWidth barGap i in
  let h := heightPx entries chartHeight entry in
  let y := chartHeight - h in
  [FillRect x y barWidth h]
  ++ (if (i mod labelEvery (length entries) =? 0)%nat
      then [BucketLabel entry gran (x + barWidth / 2) (chartHeight + 18)]
      else [])
  ++ (if decide (hover = Some i)
      then [HoverLabel tokens (x + barWidth / 2) (y - 6)]
      else []).

(** The body of [entries.forEach] for bar [i]: what it pushes on
    [state.barRects]. *)
Definition barRect (entries : list Bucket) (chartHeight barWidth barGap : num)
    (i : nat) (entry : Bucket) : BarRect :=
  let x := barLeft barWidth barGap i in
  let h := heightPx entries chartHeight entry in
  let y := chartHeight - h in
  mkBarRect i (padding_left + x) (padding_top + y) barWidth h.

Definition chartWidthOf (w : World) : num :=
  Some (fst (chartSize (elements w))) - padding_left - padding_right.

Definition chartHeightOf (w : World) : num :=
  Some (snd (chartSize (elements w))) - padding_top - padding_bottom.

(** The bar rectangles [drawChart] computes for the current data. *)
Definition layoutBars (w : World) : list BarRect :=
  let entries := chartData (state w) in
  let '(barWidth, barGap) := barPacking (chartWidthOf w) (length entries) in
  imap (barRect entries (chartHeightOf w) barWidth barGap) entries.

(** The frame [drawChart] paints for the current data and hover state. *)
Definition paintFrame (w : World) : list DrawOp :=
  let '(width, height) := chartSize (elements w) in
  let chartWidth := chartWidthOf w in
  let chartHeight := chartHeightOf w in
  let entries := chartData (state w) in
  let '(barWidth, barGap) := barPacking chartWidth (length entries) in
  [ClearRect (Some width) (Some height)]
  ++ flat_map (drawTick entries chartWidth chartHeight)
       (getLinearTicks (maxTokens entries))
  ++ concat (imap (drawBar entries (granularity (state w)) (hoverIndex (state w))
                     chartHeight barWidth barGap) entries).

Definition drawChart (w : World) : World :=
  set_redraws (S (redraws w))
    (on_elements (set_chart (paintFrame w))
       (on_state (set_barRects (layoutBars w)) w)).

End DrawChart.

(** ** Window selection (lines 1-9, 135-202, 222-259) *)

Section Selection.

Definition WINDOWS : list (string * string) :=
  [("1d", "1 day"); ("1w", "1 week"); ("1m", "1 month"); ("3m", "3 months");
   ("1y", "1 year"); ("all", "All time"); ("custom", "Custom")]%string.

(** [WINDOWS.find((w) => w.key === key)?.label ?? key] *)
Definition windowLabelOf (key : string) : string :=
  match find (fun w => String.eqb (fst w) key) WINDOWS with
  | Some w => snd w
  | None => key
  end.

(** A string used as a condition: the empty string is false. *)
Definition truthy (s : string) : bool := negb (String.eqb s "").

(** [value || fallback] on strings that may be absent. *)
Definition strOr (value : option string) (fallback : string) : string :=
  match value with
  | Some s => if truthy s then s else fallback
  | None => fallback
  end.

Definition setActiveButton (key : string) (w : World) : World :=
  on_elements
    (fun e => set_buttons
       (map (fun btn => (fst btn, String.eqb (fst btn) key)) (buttons e)) e) w.

Definition setRangeBoxVisible (visible : bool) (w : World) : World :=
  on_elements (fun e => set_controls visible (set_rangeBox visible e)) w.

Definition updateHeader (data : option Dataset) (label : string) (w : World) : World :=
  on_elements
    (fun e =>
       set_windowRange
         (match data with
          | Some d =>
              match window_start d, window_end d with
              | Some s, Some t =>
                  if truthy s && truthy t then DateRange s t else Lit "Pick a range"
              | _, _ => Lit "Pick a range"
              end
          | None => Lit "Pick a range"
          end)
         (set_windowLabel label e)) w.

Definition updateChartMeta (data : Dataset) (w : World) : World :=
  on_elements
    (fun e =>
       set_chartSubtitle (Lit "Tokens per bucket.")
         (set_chartTitle
            (Cat (Lit "Tokens by ") (Lit (strOr (data_granularity data) "day"))) e)) w.

(** [formatPct] *)
Definition formatPct (value : num) : Text :=
  match value with
  | Some v => Cat (Fixed v 3) (Lit "%")
  | None => Lit "--"
  end.

Definition updateStats (data : Dataset) (w : World) : World :=
  on_elements
    (fun e =>
       set_costUsd
         (match cost_total_usd data with
          | Some value =>
              if cost_partial data then Cat (Lit "~$") (Fixed value 2)
              else Cat (Lit "$") (Fixed value 2)
          | None => Lit "--"
          end)
         (set_uptimePct (formatPct (percent_any_instance data)) e)) w.

(** The query string [fetchUptime] builds: a parameter is set when its
    argument is a non-empty string. *)
Definition uptimeQuery (window start end_ gran : option string)
  : list (string * string) :=
  let param name value :=
    match value with
    | Some s => if truthy s then [(name, s)] else []
    | None => []
    end in
  param "window"%string window ++ param "start"%string start
  ++ param "end"%string end_ ++ param "granularity"%string gran.

(** [fetchUptime(args).then(..).catch(..)]: the request is issued and its
    handlers wait for the response. *)
Definition fetchUptime (window start end_ gran : option string) (h : Handler)
    (w : World) : World :=
  let r := mkRequest (uptimeQuery window start end_ gran) h in
  set_pending (pending w ++ [r]) (set_requests (requests w ++ [r]) w).

(** The part shared by the cached branch of [setSelectedWindow] and both
    [.then] callbacks: lines 181-186, 192-197 and 231-236. *)
Definition showData (data : Dataset) (label : string) (w : World) : World :=
  let w := updateHeader (Some data) label w in
  let w := updateStats data w in
  let w := updateChartMeta data w in
  let w := on_state (set_chartData (default [] (token_buckets data))) w in
  let w := on_state (set_granularity (strOr (data_granularity data) "day")) w in
  drawChart w.

Definition setSelectedWindow (key : string) (w : World) : World :=
  let w := on_state (set_selected key) w in
  let w := setActiveButton key w in
  let label := windowLabelOf key in
  let cached := cache (state w) !! key in
  let w := setRangeBoxVisible (String.eqb key "custom") w in
  match cached with
  | None =>
      if String.eqb key "custom" then
        let w := updateHeader None label w in
        let w := on_elements (set_uptimePct (Lit "--")) w in
        let w := on_elements (set_costUsd (Lit "--")) w in
        let w := on_state (set_chartData []) w in
        drawChart w
      else fetchUptime (Some key) None None None (OnWindow key label) w
  | Some data => showData data label w
  end.

Definition applyCustomRange (w : World) : World :=
  let start := startInput (elements w) in
  let end_ := endInput (elements w) in
  if negb (truthy start) || negb (truthy end_) then w
  else fetchUptime None (Some start) (Some end_) None OnCustomRange w.

(** The [.catch] callback of both promises. *)
Definition showError (message : string) (w : World) : World :=
  on_elements (set_uptimePct (Cat (Lit "Error: ") (Lit message))) w.

(** The callbacks of a settled promise. *)
Definition runHandler (h : Handler) (o : Outcome) (w : World) : World :=
  match o with
  | Rejected message => showError message w
  | Fulfilled data =>
      match h with
      | OnWindow key label =>
          let w := on_state (fun s => set_cache (<[key:=data]> (cache s)) s) w in
          showData data label w
      | OnCustomRange =>
          let w := on_state (fun s => set_cache (<["custom"%string:=data]> (cache s)) s) w in
          let w := on_state (set_selected "custom") w in
          let w := setActiveButton "custom" w in
          let w := showData data "Custom" w in
          setRangeBoxVisible true w
      end
  end.

(** The [i]-th pending promise settles with outcome [o]. *)
Definition settle (i : nat) (o : Outcome) (w : World) : World :=
  match pending w !! i with
  | Some r => runHandler (handler r) o (set_pending (delete i (pending w)) w)
  | None => w
  end.

End Selection.

(** ** Hover tracking (setupChartInteraction, lines 371-394) *)

Section Hover.

Local Open Scope num_scope.

(** The predicate given to [state.barRects.find]. *)
Definition hitTest (x y : num) (bar : BarRect) : bool :=
  (x >=? bar_x bar) && (x <=? bar_x bar + bar_width bar)
  && (y >=? bar_y bar) && (y <=? bar_y bar + bar_height bar).

(** [hit ? hit.index : null] *)
Definition nextIndex (x y : num) (w : World) : option nat :=
  index <$> find (hitTest x y) (barRects (state w)).

(** The mousemove listener; [x], [y] are the pointer coordinates relative
    to the canvas. *)
Definition onMouseMove (x y : Q) (w : World) : World :=
  let next := nextIndex (Some x) (Some y) w in
  if decide (hoverIndex (state w) = next) then w
  else drawChart (on_state (set_hoverIndex next) w).

Definition onMouseLeave (w : World) : World :=
  if decide (hoverIndex (state w) = None) then w
  else drawChart (on_state (set_hoverIndex None) w).

(** The resize listener, after the canvas took the size [size]. *)
Definition onResize (size : Q * Q) (w : World) : World :=
  drawChart (on_elements (set_chartSize size) w).

End Hover.

(** ** Start-up and events (lines 204-215, 244-254, 489-493) *)

Section Events.

Definition initialState : State :=
  mkState "all" ∅ [] [] "day" None.

(** [setupButtons]: one button per entry of [WINDOWS], then the selected
    one is marked. *)
Definition setupButtons (w : World) : World :=
  let w := on_elements
    (fun e => set_buttons (buttons e ++ map (fun win => (fst win, false)) WINDOWS) e) w in
  setActiveButton (selected (state w)) w.

(** [setupCustomRange]: the inputs are filled from the clock; [weekAgo]
    and [now] are the two [toLocalInputValue] strings. *)
Definition setupCustomRange (weekAgo now : string) (w : World) : World :=
  on_elements (fun e => set_startInput weekAgo (set_endInput now e)) w.

(** The script's top level, run against the page [page]. *)
Definition boot (page : Elements) (weekAgo now : string) : World :=
  let w := mkWorld initialState page [] [] 0 in
  let w := setupButtons w in
  let w := setupCustomRange weekAgo now w in
  setSelectedWindow (selected (state w)) w.

Inductive Event :=
  | Click (key : string)                  (* a window button *)
  | Apply                                 (* the apply button *)
  | EditStart (value : string)            (* the user edits the start input *)
  | EditEnd (value : string)              (* the end input, or the now button *)
  | Settle (i : nat) (o : Outcome)        (* a response or a failure arrives *)
  | Resync                                (* line 435, after a source sync *)
  | MouseMove (x y : Q)
  | MouseLeave
  | Resize (size : Q * Q).

Definition handle (ev : Event) (w : World) : World :=
  match ev with
  | Click key => setSelectedWindow key w
  | Apply => applyCustomRange w
  | EditStart value => on_elements (set_startInput value) w
  | EditEnd value => on_elements (set_endInput value) w
  | Settle i o => settle i o w
  | Resync => setSelectedWindow (selected (state w)) w
  | MouseMove x y => onMouseMove x y w
  | MouseLeave => onMouseLeave w
  | Resize size => onResize size w
  end.

(** Only the buttons of [WINDOWS] exist, so only their keys are clicked. *)
Definition possible (ev : Event) : Prop :=
  match ev with
  | Click key => key ∈ map fst WINDOWS
  | _ => True
  end.

Definition run (evs : list Event) (w : World) : World :=
  fold_left (fun w ev => handle ev w) evs w.

(** The keys of the buttons that carry the class [active]. *)
Definition activeKeys (w : World) : list string :=
  map fst (filter (fun btn => snd btn = true) (buttons (elements w))).

(** The chart shows the data of window [key]: the cached dataset's buckets,
    or the empty placeholder for [custom] before any range was applied. *)
Definition showsWindow (key : string) (w : World) : Prop :=
  match cache (state w) !! key with
  | Some data => chartData (state w) = default [] (token_buckets data)
  | None => key = "custom"%string /\ chartData (state w) = []
  end
  /\ barRects (state w) = layoutBars w
  /\ chart (elements w) = paintFrame w.

End Events.

(** ** Statements of the specification *)

Section Specification.

(** The packing as the specification words it, over exact rationals:
    target width [0.7 * W / N] floored at 3, provisional gap
    [(W - width * N) / (N - 1)], the gap clamped to 1 or to 10 with the
    width recomputed. *)
Definition closedFormPacking (W N : Q) : Q * Q :=
  let width := Qmax 3 (0.7 * W / N) in
  let gap := (W - width * N) / (N - 1) in
  if Qlt_le_dec gap 1 then (Qmax 3 ((W - 1 * (N - 1)) / N), 1)
  else if Qlt_le_dec 10 gap then ((W - 10 * (N - 1)) / N, 10)
  else (width, gap).

Definition scenarioBuckets : list Bucket :=
  [mkBucket "t0" (Some 100); mkBucket "t1" (Some 400); mkBucket "t2" (Some 100)].

(** A page whose text nodes are empty and whose button row holds no
    button, with a canvas of 310 by 200. *)
Definition blankPage : Elements :=
  mkElements [] "" (Lit "") (Lit "") (Lit "") (Lit "") (Lit "") "" "" false false
    (310, 200) [].

Definition scenarioData : Dataset :=
  mkDataset (Some "2024-01-01T00:00:00Z") (Some "2024-01-04T00:00:00Z")
    (Some "day") (Some scenarioBuckets) (Some 12.5) (Some 3.2) false.

(** The page after start-up, once the request for "all" was answered with
    [scenarioData]. *)
Definition demoWorld : World :=
  run [Settle 0 (Fulfilled scenarioData)]
    (boot blankPage "2024-01-01T00:00" "2024-01-08T00:00").

(** The button row holds the buttons of [WINDOWS], the one of the selected
    window marked, and the selected window is one of them. *)
Definition buttonsFollow (w : World) : Prop :=
  buttons (elements w)
  = map (fun win => (fst win, String.eqb (fst win) (selected (state w)))) WINDOWS
  /\ selected (state w) ∈ map fst WINDOWS.

(** [a] is the finite number [q]. *)
Definition isNum (a : num) (q : Q) : Prop :=
  exists x : Q, a = Some x /\ x == q.

(** [x] is [v] up to [tol]. *)
Definition approx (tol x v : Q) : Prop := Qabs (x - v) <= tol.

(** The point [(x, y)] lies on the rectangle, edges included. *)
Definition onRect (x y : Q) (b : BarRect) : Prop :=
  exists bx by_ bw bh : Q,
    bar_x b = Some bx /\ bar_y b = Some by_ /\
    bar_width b = Some bw /\ bar_height b = Some bh /\
    bx <= x <= bx + bw /\ by_ <= y <= by_ + bh.

(** The point lies strictly inside the rectangle. *)
Definition strictlyInside (x y : Q) (b : BarRect) : Prop :=
  exists bx by_ bw bh : Q,
    bar_x b = Some bx /\ bar_y b = Some by_ /\
    bar_width b = Some bw /\ bar_height b = Some bh /\
    bx < x < bx + bw /\ by_ < y < by_ + bh.

(** The point lies outside the rectangle: to its left, to its right,
    above it or below it.  A rectangle with a side that is not a finite
    number holds no point. *)
Definition outside (x y : Q) (b : BarRect) : Prop :=
  forall bx by_ bw bh : Q,
    bar_x b = Some bx -> bar_y b = Some by_ ->
    bar_width b = Some bw -> bar_height b = Some bh ->
    x < bx \/ bx + bw < x \/ y < by_ \/ by_ + bh < y.

End Specification.

(** ** Observations on layouts, frames, requests and runs *)

Section Observations.

Definition windowKeys : list string := map fst WINDOWS.

Definition isFillRect (op : DrawOp) : bool :=
  match op with FillRect _ _ _ _ => true | _ => false end.

Definition isBucketLabel (op : DrawOp) : bool :=
  match op with BucketLabel _ _ _ _ => true | _ => false end.

Definition isHoverLabel (op : DrawOp) : bool :=
  match op with HoverLabel _ _ _ => true | _ => false end.

(** How many calls of a kind a frame holds. *)
Definition countOps (kind : DrawOp -> bool) (frame : list DrawOp) : nat :=
  length (List.filter kind frame).

(** Every token count that is present is not negative. *)
Definition nonNegative (entries : list Bucket) : Prop :=
  forall i e q, entries !! i = Some e -> tokens e = Some q -> 0 <= q.

(** The request of a window button: one parameter [window], never for
    "custom". *)
Definition windowRequest (r : Request) : Prop :=
  exists key : string,
    key ∈ windowKeys /\ key <> "custom"%string /\
    query r = [("window"%string, key)] /\
    handler r = OnWindow key (windowLabelOf key).

(** The request of the apply button: the two bounds, both non-empty. *)
Definition rangeRequest (r : Request) : Prop :=
  exists start end_ : string,
    start <> ""%string /\ end_ <> ""%string /\
    query r = [("start"%string, start); ("end"%string, end_)] /\
    handler r = OnCustomRange.

Definition pageRequest (r : Request) : Prop := windowRequest r \/ rangeRequest r.

(** The usable width and height for a canvas of the given size. *)
Definition usableWidth (w : World) : Q := fst (chartSize (elements w)) - 56 - 20.
Definition usableHeight (w : World) : Q := snd (chartSize (elements w)) - 24 - 34.

(** The recorded rectangles are those of the current data and canvas
    size, and so is the frame once anything was drawn. *)
Definition inSync (w : World) : Prop :=
  barRects (state w) = layoutBars w /\
  (redraws w = 0%nat \/ chart (elements w) = paintFrame w).

(** Requests and cache hold window keys only. *)
Definition wellKeyed (w : World) : Prop :=
  selected (state w) ∈ windowKeys /\
  Forall pageRequest (requests w) /\
  Forall pageRequest (pending w) /\
  (forall key, is_Some (cache (state w) !! key) -> key ∈ windowKeys).

End Observations.

(** * Proofs *)

(** ** Arithmetic on numbers *)

Section NumFacts.

Lemma Qlt_bool_iff (x y : Q) : Num.Qlt_bool x y = true <-> x < y.
Proof.
  unfold Num.Qlt_bool. rewrite negb_true_iff, <- not_true_iff_false, Qle_bool_iff.
  split; [apply Qnot_le_lt | apply Qlt_not_le].
Qed.

Lemma Qlt_bool_false (x y : Q) : Num.Qlt_bool x y = false <-> y <= x.
Proof.
  unfold Num.Qlt_bool. rewrite negb_false_iff. apply Qle_bool_iff.
Qed.

Lemma Qle_bool_false (x y : Q) : Qle_bool x y = false <-> y < x.
Proof.
  rewrite <- not_true_iff_false, Qle_bool_iff.
  split; [apply Qnot_le_lt | apply Qlt_not_le].
Qed.

Lemma Qeq_bool_false (x y : Q) : Qeq_bool x y = false <-> ~ x == y.
Proof. rewrite <- not_true_iff_false, Qeq_bool_iff. reflexivity. Qed.

Lemma div_Some (x y : Q) :
  ~ y == 0 -> Num.div (Some x) (Some y) = Some (x / y).
Proof.
  intros Hy. unfold Num.div. apply Qeq_bool_false in Hy. now rewrite Hy.
Qed.

Lemma Qmax_lub_l (x y : Q) : x <= Qmax x y.
Proof. apply Q.le_max_l. Qed.

Lemma Qmax_case_eq (x y : Q) :
  (y <= x /\ Qmax x y == x) \/ (x <= y /\ Qmax x y == y).
Proof.
  destruct (Q.max_spec x y) as [[H E] | [H E]].
  - right. split; [apply Qlt_le_weak, H | exact E].
  - left. split; [exact H | exact E].
Qed.

Lemma inject_nat_ge (n k : nat) :
  (k <= n)%nat -> inject_Z (Z.of_nat k) <= inject_Z (Z.of_nat n).
Proof. intros H. rewrite <- Zle_Qle. lia. Qed.

End NumFacts.

(** ** Bar packing *)

Section BarPackingFacts.

Example barPacking_one_bar : barPacking (Some 234) 1 = (Some 234, Some 10).
Proof. reflexivity. Qed.

Example barPacking_crowded :
  barPacking (Some 524) 168 = (Some 3, Some 1).
Proof. vm_compute. reflexivity. Qed.

Lemma provisionalGap_Some (W : Q) (n : nat) :
  (2 <= n)%nat ->
  let N := inject_Z (Z.of_nat n) in
  provisionalWidth (Some W) n = Some (Qmax 3 (W * 0.7 / N)) /\
  provisionalGap (Some W) n = Some ((W - Qmax 3 (W * 0.7 / N) * N) / (N - 1)).
Proof.
  intros Hn N.
  assert (HN : 2 <= N) by (apply (inject_nat_ge n 2), Hn).
  assert (Hw : provisionalWidth (Some W) n = Some (Qmax 3 (W * 0.7 / N))).
  { unfold provisionalWidth, targetWidth, Num.of_nat. fold N. cbn.
    rewrite (proj2 (Qeq_bool_false N 0)) by lra. reflexivity. }
  split; [exact Hw |].
  unfold provisionalGap. rewrite Hw. unfold Num.of_nat. fold N. cbn.
  rewrite (proj2 (Qeq_bool_false (N - 1) 0)) by lra. reflexivity.
Qed.

(** C1 (amended).  For [n >= 2] buckets and a positive usable width [W]
    the packing is finite, the bar width is at least 3 and the gap lies in
    [1, 10]; the bars and gaps span exactly [W] when [W >= 4 * n - 1], and
    otherwise the width is 3 and the gap 1, so that the span [4 * n - 1]
    exceeds [W].  Width and gap are those of the closed form
    [closedFormPacking]. *)
Theorem barPacking_closed_form_bounds (W : Q) (n : nat) :
  (2 <= n)%nat -> 0 < W ->
  let N := inject_Z (Z.of_nat n) in
  exists width gap : Q,
    barPacking (Some W) n = (Some width, Some gap) /\
    3 <= width /\ 1 <= gap <= 10 /\
    (4 * N - 1 <= W -> width * N + gap * (N - 1) == W) /\
    (W < 4 * N - 1 -> width == 3 /\ gap == 1) /\
    width == fst (closedFormPacking W N) /\ gap == snd (closedFormPacking W N).
Proof.
  intros Hn HW N.
  assert (HN : 2 <= N) by (apply (inject_nat_ge n 2), Hn).
  destruct (provisionalGap_Some W n Hn) as [Hw Hg]. fold N in Hw, Hg.
  unfold barPacking. replace (1 <? n)%nat with true by (symmetry; apply Nat.ltb_lt; lia).
  rewrite Hw, Hg. unfold Num.of_nat. fold N.
  set (pw := Qmax 3 (W * 0.7 / N)) in *.
  set (g0 := (W - pw * N) / (N - 1)) in *.
  assert (Hpw : 3 <= pw) by apply Q.le_max_l.
  assert (Eg : g0 * (N - 1) == W - pw * N) by (unfold g0; field; lra).
  cbn.
  rewrite (proj2 (Qeq_bool_false N 0)) by lra.
  assert (Epw : Qmax 3 (0.7 * W / N) == pw).
  { unfold pw. apply Q.max_compat; [reflexivity | field; lra]. }
  assert (Eg0 : (W - Qmax 3 (0.7 * W / N) * N) / (N - 1) == g0).
  { unfold g0. rewrite Epw. reflexivity. }
  unfold closedFormPacking.
  destruct (Num.Qlt_bool g0 1) eqn:Hlt1.
  - apply Qlt_bool_iff in Hlt1.
    destruct (Qlt_le_dec _ 1) as [_ | Hc]; [| rewrite Eg0 in Hc; lra].
    set (w1 := (W - 1 * (N - 1)) / N).
    assert (Ew1 : w1 * N == W - (N - 1)) by (unfold w1; field; lra).
    exists (Qmax 3 w1), 1. cbn [fst snd].
    split; [reflexivity |]. split; [apply Q.le_max_l |]. split; [lra |].
    destruct (Qmax_case_eq 3 w1) as [[Hle E] | [Hle E]]; rewrite E.
    + repeat split; try reflexivity; intros; nra.
    + repeat split; try reflexivity; intros; nra.
  - apply Qlt_bool_false in Hlt1.
    destruct (Qlt_le_dec _ 1) as [Hc | _]; [rewrite Eg0 in Hc; lra |].
    destruct (Num.Qlt_bool 10 g0) eqn:Hgt10.
    + apply Qlt_bool_iff in Hgt10.
      destruct (Qlt_le_dec 10 _) as [_ | Hc]; [| rewrite Eg0 in Hc; lra].
      set (w1 := (W - 10 * (N - 1)) / N).
      assert (Ew1 : w1 * N == W - 10 * (N - 1)) by (unfold w1; field; lra).
      exists w1, 10. cbn [fst snd].
      split; [reflexivity |].
      repeat split; try reflexivity; intros; nra.
    + apply Qlt_bool_false in Hgt10.
      destruct (Qlt_le_dec 10 _) as [Hc | _]; [rewrite Eg0 in Hc; lra |].
      exists pw, g0. cbn [fst snd].
      split; [reflexivity |].
      repeat split; try (symmetry; assumption); try assumption; intros; nra.
Qed.

Lemma barPacking_closed_form_bounds_witness :
  exists width gap : Q,
    barPacking (Some 234) 3 = (Some width, Some gap) /\
    3 <= width /\ 1 <= gap <= 10 /\
    (4 * 3 - 1 <= 234 -> width * 3 + gap * (3 - 1) == 234) /\
    (234 < 4 * 3 - 1 -> width == 3 /\ gap == 1) /\
    width == fst (closedFormPacking 234 3) /\ gap == snd (closedFormPacking 234 3).
Proof.
  apply (barPacking_closed_form_bounds 234 3); [lia | reflexivity].
Defined.

(** C1 as stated fails: two buckets on a usable width of 1 get width 3 and
    gap 1, a span of 7. *)
Lemma barPacking_span_overflow :
  barPacking (Some 1) 2 = (Some 3, Some 1) /\
  ~ (forall (W : Q) (n : nat), (2 <= n)%nat -> 0 < W ->
       exists width gap : Q,
         barPacking (Some W) n = (Some width, Some gap) /\
         3 <= width /\ 1 <= gap <= 10 /\
         width * inject_Z (Z.of_nat n) + gap * (inject_Z (Z.of_nat n) - 1) <= W).
Proof.
  split; [reflexivity |].
  intros H. destruct (H 1 2%nat) as (width & gap & E & _ & _ & Hspan);
    [lia | reflexivity |].
  cbv in E. injection E as <- <-. cbv in Hspan. now apply Hspan.
Qed.

End BarPackingFacts.

(** ** Value scaling *)

Section ScalingFacts.

(** The finite value of [entry.tokens || 0]. *)
Lemma entryTokens_finite (e : Bucket) :
  exists t : Q, entryTokens e = Some t /\
    (tokens e = None -> t = 0) /\ (forall q, tokens e = Some q -> t == q).
Proof.
  unfold entryTokens, orElse. destruct (tokens e) as [q |].
  - destruct (Qeq_bool q 0) eqn:E.
    + exists 0. split; [reflexivity |]. split; [easy |].
      intros ? [= <-]. symmetry. now apply Qeq_bool_iff.
    + exists q. split; [reflexivity |]. split; [easy |]. now intros ? [= <-].
  - exists 0. split; [reflexivity |]. split; [easy | easy].
Qed.

(** The running maximum of [Math.max] started at [a]: it is finite, not
    below [a] nor below any entry, and it is [a] or the value of an
    entry. *)
Lemma fold_max_spec (entries : list Bucket) (a : Q) :
  exists m : Q,
    fold_left (fun acc entry => Num.max acc (entryTokens entry)) entries (Some a) = Some m /\
    a <= m /\
    (forall i e t, entries !! i = Some e -> entryTokens e = Some t -> t <= m) /\
    (m == a \/ exists i e t, entries !! i = Some e /\ entryTokens e = Some t /\ m == t).
Proof.
  revert a. induction entries as [| e entries IH]; intros a.
  - exists a. cbn. split; [reflexivity |]. split; [lra |].
    split; [intros i e t H; destruct i; discriminate | left; reflexivity].
  - destruct (entryTokens_finite e) as (t & Et & _).
    destruct (IH (Qmax a t)) as (m & Em & Ham & Hub & Hwit).
    exists m. cbn [fold_left]. rewrite Et. cbn [Num.max Num.lift2]. rewrite Em.
    pose proof (Q.le_max_l a t) as Hl. pose proof (Q.le_max_r a t) as Hr.
    split; [reflexivity |]. split; [lra |]. split.
    + intros [| i] e' t' Hi Ht'.
      * injection Hi as <-. rewrite Et in Ht'. injection Ht' as <-. lra.
      * apply (Hub i e' t' Hi Ht').
    + destruct Hwit as [E | (i & e' & t' & Hi & Ht' & E)].
      * destruct (Qmax_case_eq a t) as [[_ E'] | [_ E']].
        -- left. now rewrite E, E'.
        -- right. exists 0%nat, e, t. split; [reflexivity |]. split; [exact Et |].
           now rewrite E, E'.
      * right. exists (S i), e', t'. auto.
Qed.

Lemma maxTokens_spec (entries : list Bucket) :
  exists m : Q,
    maxTokens entries = Some m /\ 0 <= m /\
    (forall i e t, entries !! i = Some e -> entryTokens e = Some t -> t <= m) /\
    (m == 0 \/ exists i e t, entries !! i = Some e /\ entryTokens e = Some t /\ m == t).
Proof. apply (fold_max_spec entries 0). Qed.

Lemma maxValue_spec (entries : list Bucket) :
  exists m v : Q,
    maxTokens entries = Some m /\ maxValue entries = Some v /\
    0 <= m /\ 0 < v /\ (m == 0 -> v = 1) /\ (~ m == 0 -> v = m).
Proof.
  destruct (maxTokens_spec entries) as (m & Em & Hm & _).
  unfold maxValue. rewrite Em. cbn [Num.is_zero].
  destruct (Qeq_bool m 0) eqn:E.
  - apply Qeq_bool_iff in E. exists m, 1.
    repeat split; try easy; intros H; now destruct H.
  - apply Qeq_bool_false in E. exists m, m.
    repeat split; try easy.
    all: try (destruct (Qle_lt_or_eq _ _ Hm) as [H | H]; [exact H |];
              destruct E; now symmetry).
Qed.

Lemma heightPx_spec (entries : list Bucket) (H : Q) (e : Bucket) (t v : Q) :
  entryTokens e = Some t -> maxValue entries = Some v -> 0 < v ->
  heightPx entries (Some H) e = Some (t / v * H).
Proof.
  intros Et Ev Hv. unfold heightPx. rewrite Et, Ev. cbn.
  rewrite (proj2 (Qeq_bool_false v 0)) by lra. reflexivity.
Qed.

(** C3 (amended).  The scaling denominator is the largest token count, or
    1 when that is 0; it is finite and positive, and it is [max 1 m] when
    the largest count [m] is 0 or at least 1.  Every bar height is the
    finite number [tokens / maxValue * H]; it is 0 for every bar when all
    counts are 0, and it is [H] for a bar whose count is positive while
    every other count is 0. *)
Theorem drawChart_scaling (entries : list Bucket) (H : Q) :
  exists m v : Q,
    maxTokens entries = Some m /\ maxValue entries = Some v /\
    0 <= m /\ 0 < v /\
    v == (if Qeq_bool m 0 then 1 else m) /\
    (m == 0 \/ 1 <= m -> v == Qmax 1 m) /\
    (forall i e, entries !! i = Some e ->
       exists t, entryTokens e = Some t /\
         heightPx entries (Some H) e = Some (t / v * H)) /\
    ((forall i e, entries !! i = Some e -> isNum (entryTokens e) 0) ->
     forall i e, entries !! i = Some e -> isNum (heightPx entries (Some H) e) 0) /\
    (forall i e t, entries !! i = Some e -> entryTokens e = Some t -> 0 < t ->
       (forall j e', j <> i -> entries !! j = Some e' -> isNum (entryTokens e') 0) ->
       isNum (heightPx entries (Some H) e) H).
Proof.
  destruct (maxValue_spec entries) as (m & v & Em & Ev & Hm & Hv & Hv0 & Hv1).
  destruct (maxTokens_spec entries) as (m' & Em' & _ & Hub & Hwit).
  rewrite Em in Em'. injection Em' as <-.
  assert (Eif : v == (if Qeq_bool m 0 then 1 else m)).
  { destruct (Qeq_bool m 0) eqn:E.
    - apply Qeq_bool_iff in E. now rewrite (Hv0 E).
    - apply Qeq_bool_false in E. now rewrite (Hv1 E). }
  exists m, v. repeat split; try assumption.
  - intros [E | Hge].
    + rewrite (Hv0 E). rewrite Q.max_l; [reflexivity | lra].
    + rewrite Hv1 by lra. rewrite Q.max_r; [reflexivity | lra].
  - intros i e Hi. destruct (entryTokens_finite e) as (t & Et & _).
    exists t. split; [exact Et | now apply heightPx_spec].
  - intros Hall i e Hi. destruct (Hall i e Hi) as (t & Et & Ht).
    exists (t / v * H). split; [now apply heightPx_spec |].
    rewrite Ht. field. lra.
  - intros i e t Hi Et Ht Hothers.
    exists (t / v * H). split; [now apply heightPx_spec |].
    assert (Emt : m == t).
    { pose proof (Hub i e t Hi Et) as Hle.
      destruct Hwit as [E | (j & e' & t' & Hj & Et' & E)]; [lra |].
      destruct (Nat.eq_dec j i) as [-> | Hne].
      - rewrite Hi in Hj. injection Hj as <-. rewrite Et in Et'.
        injection Et' as <-. exact E.
      - destruct (Hothers j e' Hne Hj) as (z & Ez & Hz).
        rewrite Et' in Ez. injection Ez as <-. lra. }
    rewrite Hv1 by lra. rewrite Emt. field. lra.
Qed.

(** C3 as stated fails: a single bucket of half a token is scaled by 1/2,
    not by [max 1 (1/2) = 1]. *)
Lemma maxValue_below_one :
  maxValue [mkBucket "t0" (Some (1 # 2))] = Some (1 # 2) /\
  ~ (forall entries : list Bucket,
       (forall i e, entries !! i = Some e -> exists t, tokens e = Some t /\ 0 <= t) ->
       exists m : Q, maxTokens entries = Some m /\ isNum (maxValue entries) (Qmax 1 m)).
Proof.
  split; [reflexivity |].
  intros H. destruct (H [mkBucket "t0" (Some (1 # 2))]) as (m & Em & v & Ev & Hv).
  - intros [| i] e Hi; [| destruct i; discriminate].
    injection Hi as <-. exists (1 # 2). split; [reflexivity | easy].
  - cbv in Em. injection Em as <-. cbv in Ev. injection Ev as <-.
    cbv in Hv. discriminate.
Qed.

Lemma drawChart_scaling_witness :
  isNum (heightPx [mkBucket "t0" (Some 0); mkBucket "t1" (Some 400); mkBucket "t2" None]
           (Some 142) (mkBucket "t1" (Some 400))) 142.
Proof.
  destruct (drawChart_scaling
              [mkBucket "t0" (Some 0); mkBucket "t1" (Some 400); mkBucket "t2" None] 142)
    as (m & v & _ & _ & _ & _ & _ & _ & _ & _ & Hone).
  apply (Hone 1%nat (mkBucket "t1" (Some 400)) 400); [reflexivity | reflexivity | reflexivity |].
  intros [| [| [| j]]] e' Hj He'; try (destruct Hj; reflexivity); try discriminate;
    injection He' as <-; (eexists; split; [reflexivity | reflexivity]).
Defined.

End ScalingFacts.

(** ** The three-bucket scenario *)

Section Scenario.

(** C8 (amended).  For tokens [100, 400, 100] on a usable area of 234 by
    142: the target width is 54.6, the provisional gap is 35.1 (above 10),
    the gap is clamped to 10 and the width recomputed to (234 - 20) / 3,
    about 71.3; the scaling denominator is 400 and the bar heights are
    35.5, 142 and 35.5. *)
Theorem scenario_layout :
  isNum (targetWidth (Some 234) 3) 54.6 /\
  isNum (provisionalGap (Some 234) 3) 35.1 /\
  (exists width : Q,
     barPacking (Some 234) 3 = (Some width, Some 10) /\
     width == (234 - 20) / 3 /\ approx 0.05 width 71.3) /\
  maxValue scenarioBuckets = Some 400 /\
  Forall2 isNum (barHeights scenarioBuckets (Some 142)) [35.5; 142; 35.5].
Proof.
  split; [eexists; split; [reflexivity | reflexivity] |].
  split; [eexists; split; [reflexivity | reflexivity] |].
  split.
  { eexists. split; [reflexivity |]. split; [reflexivity |].
    unfold approx. vm_compute. discriminate. }
  split; [reflexivity |].
  repeat constructor; (eexists; split; [reflexivity | reflexivity]).
Qed.

(** C8 as stated fails on the provisional gap: it is 35.1, which is 18
    away from 53.1. *)
Lemma scenario_gap_not_53 :
  isNum (provisionalGap (Some 234) 3) 35.1 /\
  ~ (exists gap : Q, provisionalGap (Some 234) 3 = Some gap /\ approx 1 gap 53.1).
Proof.
  split; [eexists; split; [reflexivity | reflexivity] |].
  intros (gap & E & H). vm_compute in E. injection E as <-.
  unfold approx in H. vm_compute in H. now apply H.
Qed.

End Scenario.

(** ** Hover tracking *)

Section HoverFacts.

Lemma find_only_match {A} (f : A -> bool) (l : list A) (i : nat) (b : A) :
  l !! i = Some b -> f b = true ->
  (forall j b', j <> i -> l !! j = Some b' -> f b' = false) ->
  find f l = Some b.
Proof.
  revert i. induction l as [| a l IH]; intros i Hi Hb Hothers; [destruct i; discriminate |].
  destruct i as [| i].
  - injection Hi as ->. cbn. now rewrite Hb.
  - cbn. rewrite (Hothers 0%nat a) by (cbn; congruence || lia).
    apply (IH i Hi Hb). intros j b' Hj Hl. apply (Hothers (S j) b'); [lia | exact Hl].
Qed.

Lemma find_no_match {A} (f : A -> bool) (l : list A) :
  (forall j b, l !! j = Some b -> f b = false) -> find f l = None.
Proof.
  induction l as [| a l IH]; intros H; [reflexivity |].
  cbn. rewrite (H 0%nat a eq_refl). apply IH. intros j b. apply (H (S j) b).
Qed.

(** [drawChart] numbers the rectangles by position. *)
Lemma layoutBars_index (w : World) (i : nat) (b : BarRect) :
  layoutBars w !! i = Some b -> index b = i.
Proof.
  unfold layoutBars. destruct (barPacking _ _) as [bw bg].
  rewrite list_lookup_imap. destruct (chartData (state w) !! i); [| discriminate].
  cbn. now intros [= <-].
Qed.

(** The test of the listener holds exactly on the closed rectangle. *)
Lemma hitTest_onRect (x y : Q) (b : BarRect) :
  hitTest (Some x) (Some y) b = true <-> onRect x y b.
Proof.
  unfold hitTest, onRect.
  destruct b as [idx [bx |] [by_ |] [bw |] [bh |]]; cbn;
    try (split; [intros H; repeat rewrite ?andb_false_r in H; discriminate
                | intros (? & ? & ? & ? & ? & ? & ? & ? & _); discriminate]).
  rewrite !andb_true_iff, !Qle_bool_iff. split.
  - intros [[[H1 H2] H3] H4]. exists bx, by_, bw, bh. repeat split; assumption.
  - intros (? & ? & ? & ? & [= <-] & [= <-] & [= <-] & [= <-] & [H1 H2] & [H3 H4]).
    repeat split; assumption.
Qed.

Lemma strictlyInside_onRect (x y : Q) (b : BarRect) :
  strictlyInside x y b -> onRect x y b.
Proof.
  intros (bx & by_ & bw & bh & Ex & Ey & Ew & Eh & [H1 H2] & [H3 H4]).
  exists bx, by_, bw, bh. repeat split; try assumption; lra.
Qed.

(** The test fails exactly outside the rectangle. *)
Lemma hitTest_outside (x y : Q) (b : BarRect) :
  hitTest (Some x) (Some y) b = false <-> outside x y b.
Proof.
  rewrite <- not_true_iff_false, hitTest_onRect. unfold onRect, outside. split.
  - intros Hnot bx by_ bw bh Ex Ey Ew Eh.
    destruct (Qlt_le_dec x bx) as [| H1]; [now left |].
    destruct (Qlt_le_dec (bx + bw) x) as [| H2]; [now right; left |].
    destruct (Qlt_le_dec y by_) as [| H3]; [now right; right; left |].
    destruct (Qlt_le_dec (by_ + bh) y) as [| H4]; [now right; right; right |].
    exfalso. apply Hnot. exists bx, by_, bw, bh. repeat split; assumption.
  - intros Hout (bx & by_ & bw & bh & Ex & Ey & Ew & Eh & [H1 H2] & [H3 H4]).
    destruct (Hout bx by_ bw bh Ex Ey Ew Eh) as [H | [H | [H | H]]]; lra.
Qed.

(** C4.  On rectangles numbered by position, as [drawChart] leaves them:
    a pointer strictly inside rectangle [i] and outside every other
    rectangle selects [i]; a pointer outside every rectangle selects
    none; the listener leaves everything unchanged when the index found
    is the stored one, and otherwise stores it and redraws once. *)
Theorem hover_hit_test (w : World) (x y : Q) :
  (forall i b, barRects (state w) !! i = Some b -> index b = i) ->
  (forall i b,
     barRects (state w) !! i = Some b -> strictlyInside x y b ->
     (forall j b', j <> i -> barRects (state w) !! j = Some b' -> outside x y b') ->
     nextIndex (Some x) (Some y) w = Some i) /\
  ((forall j b, barRects (state w) !! j = Some b -> outside x y b) ->
   nextIndex (Some x) (Some y) w = None) /\
  (hoverIndex (state w) = nextIndex (Some x) (Some y) w -> onMouseMove x y w = w) /\
  (hoverIndex (state w) <> nextIndex (Some x) (Some y) w ->
   hoverIndex (state (onMouseMove x y w)) = nextIndex (Some x) (Some y) w /\
   redraws (onMouseMove x y w) = S (redraws w)).
Proof.
  intros Hidx. split; [| split; [| split]].
  - intros i b Hi Hin Hothers. unfold nextIndex.
    rewrite (find_only_match _ _ i b Hi).
    + cbn. f_equal. apply (Hidx i b Hi).
    + apply hitTest_onRect, strictlyInside_onRect, Hin.
    + intros j b' Hj Hb'. apply hitTest_outside, (Hothers j b' Hj Hb').
  - intros Hnone. unfold nextIndex. rewrite find_no_match; [reflexivity |].
    intros j b Hb. apply hitTest_outside, (Hnone j b Hb).
  - intros E. unfold onMouseMove. now rewrite decide_True by exact E.
  - intros NE. unfold onMouseMove. rewrite decide_False by exact NE.
    split; reflexivity.
Qed.

(** In the scenario a pointer at (150, 100) is inside the middle bar, and
    a pointer at (60, 50) is above the first bar, whose top is at 130.5:
    it is in the column of the bar and selects nothing. *)
Lemma hover_hit_test_witness :
  nextIndex (Some 150) (Some 100) demoWorld = Some 1%nat /\
  nextIndex (Some 60) (Some 50) demoWorld = None.
Proof.
  assert (Hidx : forall i b, barRects (state demoWorld) !! i = Some b -> index b = i).
  { intros i b Hi. apply (layoutBars_index demoWorld i b Hi). }
  split.
  - destruct (hover_hit_test demoWorld 150 100 Hidx) as [H _].
    apply (H 1%nat (mkBarRect 1 (Some (56 + 1 * ((234 - 10 * (3 - 1)) / 3 + 10)))
                      (Some (24 + (142 - 400 / 400 * 142)))
                      (Some ((234 - 10 * (3 - 1)) / 3)) (Some (400 / 400 * 142)))
             eq_refl).
    + eexists _, _, _, _.
      split; [reflexivity |]. split; [reflexivity |]. split; [reflexivity |].
      split; [reflexivity |]. split; split; reflexivity.
    + intros [| [| [| j]]] b' Hj Hb'; try (destruct Hj; reflexivity);
        try discriminate; injection Hb' as <-;
        intros bx by_ bw bh [= <-] [= <-] [= <-] [= <-].
      * right; left. reflexivity.
      * left. reflexivity.
  - destruct (hover_hit_test demoWorld 60 50 Hidx) as (_ & H & _).
    apply H.
    intros [| [| [| j]]] b Hb; try discriminate; injection Hb as <-;
      intros bx by_ bw bh [= <-] [= <-] [= <-] [= <-].
    + right; right; left. reflexivity.
    + left. reflexivity.
    + left. reflexivity.
Defined.

End HoverFacts.

(** ** Window selection *)

Section SelectionFacts.

Lemma drawChart_shows (w : World) :
  barRects (state (drawChart w)) = layoutBars (drawChart w) /\
  chart (elements (drawChart w)) = paintFrame (drawChart w).
Proof. split; reflexivity. Qed.

Lemma setSelectedWindow_shows_cached (w : World) (key : string) (data : Dataset) :
  cache (state w) !! key = Some data -> showsWindow key (setSelectedWindow key w).
Proof.
  intros Hc. unfold setSelectedWindow. cbn. rewrite Hc.
  unfold showsWindow. cbn. rewrite Hc. repeat split; reflexivity.
Qed.

Lemma setSelectedWindow_shows_placeholder (w : World) :
  cache (state w) !! "custom"%string = None ->
  showsWindow "custom" (setSelectedWindow "custom" w).
Proof.
  intros Hc. unfold setSelectedWindow. cbn. rewrite Hc.
  unfold showsWindow. cbn. rewrite Hc. repeat split; reflexivity.
Qed.

(** C7.  Selecting "custom" while no dataset is cached for it issues no
    request and shows the placeholder: both stats read "--", the range
    reads "Pick a range", the chart data and the bar rectangles are
    empty, and the frame holds the cleared surface and the gridline of
    tick 0 only. *)
Theorem select_custom_placeholder (w : World) :
  cache (state w) !! "custom"%string = None ->
  let w' := setSelectedWindow "custom" w in
  requests w' = requests w /\ pending w' = pending w /\
  uptimePct (elements w') = Lit "--" /\ costUsd (elements w') = Lit "--" /\
  windowRange (elements w') = Lit "Pick a range" /\
  chartData (state w') = [] /\ barRects (state w') = [] /\
  chart (elements w') =
    ClearRect (Some (fst (chartSize (elements w)))) (Some (snd (chartSize (elements w))))
    :: drawTick [] (chartWidthOf w) (chartHeightOf w) 0 /\
  showsWindow "custom" w'.
Proof.
  intros Hc w'. subst w'.
  pose proof (setSelectedWindow_shows_placeholder w Hc) as Hshows.
  revert Hshows. unfold setSelectedWindow. cbn. rewrite Hc. intros Hshows.
  repeat split; try reflexivity; try apply Hshows.
  cbn. unfold paintFrame. cbn. destruct (chartSize (elements w)); reflexivity.
Qed.

Lemma select_custom_placeholder_witness :
  let w' := setSelectedWindow "custom" demoWorld in
  requests w' = requests demoWorld /\ pending w' = pending demoWorld /\
  uptimePct (elements w') = Lit "--" /\ costUsd (elements w') = Lit "--" /\
  windowRange (elements w') = Lit "Pick a range" /\
  chartData (state w') = [] /\ barRects (state w') = [] /\
  chart (elements w') =
    ClearRect (Some (fst (chartSize (elements demoWorld))))
      (Some (snd (chartSize (elements demoWorld))))
    :: drawTick [] (chartWidthOf demoWorld) (chartHeightOf demoWorld) 0 /\
  showsWindow "custom" w'.
Proof.
  apply (select_custom_placeholder demoWorld). reflexivity.
Defined.

(** C10.  With an empty start or end input, [applyCustomRange] changes
    nothing: no request, the same cache, selection, chart and frame, and no
    redraw. *)
Theorem applyCustomRange_empty_input (w : World) :
  startInput (elements w) = ""%string \/ endInput (elements w) = ""%string ->
  applyCustomRange w = w.
Proof.
  intros H. unfold applyCustomRange.
  destruct H as [-> | ->]; cbn; [reflexivity | now rewrite orb_true_r].
Qed.

Lemma applyCustomRange_empty_input_witness :
  applyCustomRange (handle (EditStart "") demoWorld) = handle (EditStart "") demoWorld.
Proof.
  apply (applyCustomRange_empty_input (handle (EditStart "") demoWorld)).
  left. reflexivity.
Defined.

End SelectionFacts.

Section FailureFacts.

(** Selecting a window that is neither cached nor "custom" issues exactly
    one request, for that window, and draws nothing. *)
Lemma select_uncached_issues_request (w : World) (key : string) :
  cache (state w) !! key = None -> key <> "custom"%string ->
  let w' := setSelectedWindow key w in
  let r := mkRequest (uptimeQuery (Some key) None None None)
             (OnWindow key (windowLabelOf key)) in
  requests w' = requests w ++ [r] /\ pending w' = pending w ++ [r] /\
  cache (state w') = cache (state w) /\
  chartData (state w') = chartData (state w) /\
  barRects (state w') = barRects (state w) /\
  chart (elements w') = chart (elements w) /\
  redraws w' = redraws w.
Proof.
  intros Hc Hk w' r. subst w' r. unfold setSelectedWindow. cbn. rewrite Hc.
  apply String.eqb_neq in Hk. rewrite Hk. repeat split; reflexivity.
Qed.

(** C5.  When the request of a window selection fails, the [state] object
    (cache, chart data, bar rectangles, selection, hover index) is
    unchanged, no request is issued and nothing is redrawn; of the page
    only the uptime stat changes, to "Error: " followed by the message, so
    the frame and every other text stay as they were. *)
Theorem select_failure_keeps_chart (w : World) (i : nat) (q : list (string * string))
    (key label message : string) :
  pending w !! i = Some (mkRequest q (OnWindow key label)) ->
  let w' := settle i (Rejected message) w in
  state w' = state w /\
  elements w' = set_uptimePct (Cat (Lit "Error: ") (Lit message)) (elements w) /\
  chart (elements w') = chart (elements w) /\
  requests w' = requests w /\ redraws w' = redraws w /\
  pending w' = delete i (pending w).
Proof.
  intros Hp w'. subst w'. unfold settle. rewrite Hp. cbn.
  repeat split; reflexivity.
Qed.

Lemma select_failure_keeps_chart_witness :
  let w := setSelectedWindow "1d" demoWorld in
  let w' := settle 0 (Rejected "Failed to fetch uptime") w in
  state w' = state w /\
  elements w' =
    set_uptimePct (Cat (Lit "Error: ") (Lit "Failed to fetch uptime")) (elements w) /\
  chart (elements w') = chart (elements w) /\
  requests w' = requests w /\ redraws w' = redraws w /\
  pending w' = delete 0%nat (pending w).
Proof.
  apply (select_failure_keeps_chart (setSelectedWindow "1d" demoWorld) 0
           [("window", "1d")]%string "1d" "1 day" "Failed to fetch uptime").
  reflexivity.
Defined.

(** From the click to the failure: compared with the page before the
    selection, the cache, the chart data, the bar rectangles, the frame,
    the header, the cost and the chart captions are the same; the
    selection and its button have moved to [key]. *)
Lemma select_then_failure (w : World) (key message : string) :
  cache (state w) !! key = None -> key <> "custom"%string ->
  let w' := settle (length (pending w)) (Rejected message) (setSelectedWindow key w) in
  cache (state w') = cache (state w) /\
  chartData (state w') = chartData (state w) /\
  barRects (state w') = barRects (state w) /\
  chart (elements w') = chart (elements w) /\
  windowLabel (elements w') = windowLabel (elements w) /\
  windowRange (elements w') = windowRange (elements w) /\
  costUsd (elements w') = costUsd (elements w) /\
  chartTitle (elements w') = chartTitle (elements w) /\
  uptimePct (elements w') = Cat (Lit "Error: ") (Lit message) /\
  requests w' = requests w ++ [mkRequest (uptimeQuery (Some key) None None None)
                                 (OnWindow key (windowLabelOf key))] /\
  pending w' = pending w /\ redraws w' = redraws w /\
  selected (state w') = key.
Proof.
  intros Hc Hk w'. subst w'. unfold settle, setSelectedWindow. cbn. rewrite Hc.
  pose proof Hk as Hk'. apply String.eqb_neq in Hk'. rewrite Hk'.
  cbn. rewrite list_lookup_middle by reflexivity. cbn.
  rewrite delete_middle. repeat split; try reflexivity. apply app_nil_r.
Qed.

End FailureFacts.

(** ** The active indicator *)

Section IndicatorFacts.

Lemma custom_is_window : "custom"%string ∈ map fst WINDOWS.
Proof. apply list_elem_of_In. cbn. tauto. Qed.

Lemma all_is_window : "all"%string ∈ map fst WINDOWS.
Proof. apply list_elem_of_In. cbn. tauto. Qed.

Lemma buttonsFollow_one_active (w : World) :
  buttonsFollow w -> activeKeys w = [selected (state w)].
Proof.
  intros [Hb Hs]. unfold activeKeys. rewrite Hb.
  apply list_elem_of_In in Hs. cbn in Hs.
  destruct Hs as [<- | [<- | [<- | [<- | [<- | [<- | [<- | []]]]]]]]; reflexivity.
Qed.

Lemma setActiveButton_follow (key : string) (w : World) :
  buttons (elements w) = map (fun win => (fst win, String.eqb (fst win) (selected (state w)))) WINDOWS ->
  buttons (elements (setActiveButton key w))
  = map (fun win => (fst win, String.eqb (fst win) key)) WINDOWS.
Proof. intros Hb. cbn. rewrite Hb. reflexivity. Qed.

Lemma setSelectedWindow_buttons (key : string) (w : World) :
  buttons (elements (setSelectedWindow key w))
  = map (fun btn => (fst btn, String.eqb (fst btn) key)) (buttons (elements w))
  /\ selected (state (setSelectedWindow key w)) = key.
Proof.
  unfold setSelectedWindow. cbn.
  destruct (cache (state w) !! key); [split; reflexivity |].
  destruct (String.eqb key "custom"); split; reflexivity.
Qed.

Lemma setSelectedWindow_follow (key : string) (w : World) :
  buttonsFollow w -> key ∈ map fst WINDOWS -> buttonsFollow (setSelectedWindow key w).
Proof.
  intros [Hb _] Hk. destruct (setSelectedWindow_buttons key w) as [Eb Es].
  split; [| now rewrite Es]. rewrite Eb, Es, Hb. reflexivity.
Qed.

Lemma settle_follow (i : nat) (o : Outcome) (w : World) :
  buttonsFollow w -> buttonsFollow (settle i o w).
Proof.
  intros [Hb Hs]. unfold settle. destruct (pending w !! i) as [r |]; [| now split].
  destruct o as [data | message]; [| now split].
  destruct (handler r) as [key label |]; [now split |].
  split; [cbn; rewrite Hb; reflexivity |]. apply custom_is_window.
Qed.

Lemma handle_follow (ev : Event) (w : World) :
  possible ev -> buttonsFollow w -> buttonsFollow (handle ev w).
Proof.
  intros Hev Hw. destruct ev; cbn [handle].
  - now apply setSelectedWindow_follow.
  - unfold applyCustomRange. destruct (_ || _); [exact Hw | exact Hw].
  - exact Hw.
  - exact Hw.
  - now apply settle_follow.
  - apply setSelectedWindow_follow; [exact Hw | apply Hw].
  - unfold onMouseMove. destruct (decide _); exact Hw.
  - unfold onMouseLeave. destruct (decide _); exact Hw.
  - exact Hw.
Qed.

Lemma boot_follow (page : Elements) (weekAgo now : string) :
  buttons page = [] -> buttonsFollow (boot page weekAgo now).
Proof.
  intros Hp. unfold boot. apply setSelectedWindow_follow; [| apply all_is_window].
  split; [| apply all_is_window]. cbn. rewrite Hp. reflexivity.
Qed.

Lemma run_follow (evs : list Event) (w : World) :
  Forall possible evs -> buttonsFollow w -> buttonsFollow (run evs w).
Proof.
  revert w. induction evs as [| ev evs IH]; intros w Hevs Hw; [exact Hw |].
  inversion Hevs as [| ? ? Hev Hrest]; subst. cbn.
  apply IH; [exact Hrest | now apply handle_follow].
Qed.

Lemma showData_shows (key label : string) (data : Dataset) (w : World) :
  cache (state w) !! key = Some data -> showsWindow key (showData data label w).
Proof.
  intros Hc. unfold showsWindow. cbn. rewrite Hc. repeat split; reflexivity.
Qed.




End IndicatorFacts.

(** ** Gridline ticks *)

Section LogFacts.

Local Open Scope Z_scope.

Lemma ilog10_spec (fuel : nat) (n : Z) :
  1 <= n < 2 ^ Z.of_nat fuel ->
  0 <= ilog10 fuel n /\ 10 ^ ilog10 fuel n <= n < 10 ^ (ilog10 fuel n + 1).
Proof.
  revert n. induction fuel as [| fuel IH]; intros n [H1 H2].
  - cbn in H2. lia.
  - cbn [ilog10]. destruct (Z.ltb_spec n 10) as [Hlt | Hge].
    + cbn. lia.
    + assert (Hn : 1 <= n / 10 < 2 ^ Z.of_nat fuel).
      { split; [apply Z.div_le_lower_bound; lia |].
        apply Z.div_lt_upper_bound; [lia |].
        rewrite Nat2Z.inj_succ, Z.pow_succ_r in H2 by lia. lia. }
      destruct (IH _ Hn) as (H0 & Hlo & Hhi).
      set (k := ilog10 fuel (n / 10)) in *.
      pose proof (Z.mul_div_le n 10 ltac:(lia)) as Hd.
      pose proof (Z.mod_pos_bound n 10 ltac:(lia)) as Hm.
      pose proof (Z.div_mod n 10 ltac:(lia)) as Hdm.
      split; [lia |].
      replace (1 + k + 1) with (Z.succ (k + 1)) by lia.
      replace (1 + k) with (Z.succ k) by lia.
      rewrite !Z.pow_succ_r by lia. lia.
Qed.

Lemma clog10_spec (fuel : nat) (p d : Z) :
  0 < p < d -> d < 2 ^ Z.of_nat fuel * p ->
  1 <= clog10 fuel p d /\
  10 ^ (clog10 fuel p d - 1) * p < d <= 10 ^ clog10 fuel p d * p.
Proof.
  revert p. induction fuel as [| fuel IH]; intros p [Hp Hd] Hf.
  - cbn in Hf. lia.
  - cbn [clog10]. destruct (Z.leb_spec d (10 * p)) as [Hle | Hgt].
    + cbn. lia.
    + assert (Hf' : d < 2 ^ Z.of_nat fuel * (10 * p)).
      { rewrite Nat2Z.inj_succ, Z.pow_succ_r in Hf by lia.
        assert (0 < 2 ^ Z.of_nat fuel) by (apply Z.pow_pos_nonneg; lia). nia. }
      destruct (IH (10 * p) ltac:(lia) Hf') as (H1 & Hlo & Hhi).
      set (k := clog10 fuel (10 * p) d) in *.
      split; [lia |].
      replace (1 + k - 1) with (Z.succ (k - 1)) by lia.
      replace (1 + k) with (Z.succ k) by lia.
      rewrite !Z.pow_succ_r by lia. lia.
Qed.

Lemma log2_fuel (n : Z) : 0 < n -> n < 2 ^ Z.of_nat (S (Z.to_nat (Z.log2 n))).
Proof.
  intros Hn. rewrite Nat2Z.inj_succ, Z2Nat.id by apply Z.log2_nonneg.
  apply Z.log2_spec, Hn.
Qed.

End LogFacts.

Section TickFacts.

Lemma pow10_pos (z : Z) : 0 < 10 ^ z.
Proof. apply Qpower_0_lt. reflexivity. Qed.

Lemma pow10_succ (z : Z) : 10 ^ (z + 1) == 10 * 10 ^ z.
Proof. rewrite Qpower_plus by discriminate. cbn. ring. Qed.

Lemma pow10_inject (z : Z) : (0 <= z)%Z -> 10 ^ z == inject_Z (10 ^ z).
Proof. intros Hz. now rewrite (Zpower_Qpower 10 z Hz). Qed.

(** [floorLog10 q] is the integer part of the decimal logarithm. *)
Lemma floorLog10_spec (q : Q) :
  0 < q -> 10 ^ floorLog10 q <= q /\ q < 10 ^ (floorLog10 q + 1).
Proof.
  destruct q as [p d]. intros Hq.
  assert (Hp : (0 < p)%Z) by (unfold Qlt in Hq; cbn in Hq; lia).
  unfold floorLog10. cbn [Qnum Qden].
  destruct (Z.leb_spec (Z.pos d) p) as [Hle | Hlt].
  - assert (Hn : (1 <= p / Z.pos d < 2 ^ Z.of_nat (S (Z.to_nat (Z.log2 p))))%Z).
    { split; [apply Z.div_le_lower_bound; lia |].
      apply Z.le_lt_trans with p; [| now apply log2_fuel].
      apply Z.div_le_upper_bound; [lia | nia]. }
    destruct (ilog10_spec _ _ Hn) as (H0 & Hlo & Hhi).
    set (k := ilog10 _ _) in *.
    rewrite !pow10_inject by lia.
    pose proof (Qfloor_le (p # d)) as Hfl. pose proof (Qlt_floor (p # d)) as Hfu.
    cbn [Qfloor] in Hfl, Hfu.
    split.
    + eapply Qle_trans; [| exact Hfl]. rewrite <- Zle_Qle. exact Hlo.
    + eapply Qlt_le_trans; [exact Hfu |]. rewrite <- Zle_Qle. lia.
  - assert (Hf : (Z.pos d < 2 ^ Z.of_nat (S (Z.to_nat (Z.log2 (Z.pos d)))) * p)%Z).
    { pose proof (log2_fuel (Z.pos d) ltac:(lia)). nia. }
    destruct (clog10_spec _ p (Z.pos d) ltac:(lia) Hf) as (H1 & Hlo & Hhi).
    set (k := clog10 _ _ _) in *.
    replace (- k + 1)%Z with (- (k - 1))%Z by lia.
    rewrite !Qpower_opp, !pow10_inject by lia.
    rewrite (Qmake_Qdiv p d).
    assert (HA : 0 < inject_Z (10 ^ k)).
    { rewrite <- pow10_inject by lia. apply pow10_pos. }
    assert (HB : 0 < inject_Z (10 ^ (k - 1))).
    { rewrite <- pow10_inject by lia. apply pow10_pos. }
    assert (HD : 0 < inject_Z (Z.pos d)) by reflexivity.
    split.
    + apply Qle_shift_div_l; [exact HD |].
      setoid_replace (/ inject_Z (10 ^ k) * inject_Z (Z.pos d))
        with (inject_Z (Z.pos d) / inject_Z (10 ^ k)) using relation Qeq by (field; lra).
      apply Qle_shift_div_r; [exact HA |].
      rewrite <- inject_Z_mult, <- Zle_Qle. lia.
    + apply Qlt_shift_div_r; [exact HD |].
      setoid_replace (/ inject_Z (10 ^ (k - 1)) * inject_Z (Z.pos d))
        with (inject_Z (Z.pos d) / inject_Z (10 ^ (k - 1))) using relation Qeq
        by (field; lra).
      apply Qlt_shift_div_l; [exact HB |].
      rewrite <- inject_Z_mult, <- Zlt_Qlt. lia.
Qed.

(** Five ticks, 0 to 400, for a maximum of 400; three for 0.25. *)
Example ticks_400 :
  getLinearTicks (Some 400)
  = map Some [0; 0 + 100; 0 + 100 + 100; 0 + 100 + 100 + 100;
              0 + 100 + 100 + 100 + 100].
Proof. vm_compute. reflexivity. Qed.

Example ticks_quarter :
  Forall2 isNum (getLinearTicks (Some 0.25))
    [0; 0.05; 0.1; 0.15; 0.2; 0.25].
Proof. repeat constructor; (eexists; split; [reflexivity | reflexivity]). Qed.

Example ticks_negative : getLinearTicks (Some (-3)) = [Some 0].
Proof. reflexivity. Qed.

(** The 1-2-5 rule: the step is 1, 2 or 5 times the power of ten just
    below the rough step. *)
Lemma tickStep_spec (m : Q) :
  0 < m ->
  exists (k : Q) (e : Z) (s : Q),
    tickStep (Some m) = Some s /\ s == k * 10 ^ e /\
    e = floorLog10 (m / 4) /\
    10 ^ e <= m / 4 < 10 ^ (e + 1) /\
    (k = 1 /\ m / 4 / 10 ^ e < 2 \/
     k = 2 /\ 2 <= m / 4 / 10 ^ e < 5 \/
     k = 5 /\ 5 <= m / 4 / 10 ^ e).
Proof.
  intros Hm.
  assert (Hr : 0 < m / 4) by (apply Qlt_shift_div_l; [reflexivity | lra]).
  destruct (floorLog10_spec (m / 4) Hr) as [Hlo Hhi].
  set (e := floorLog10 (m / 4)) in *.
  pose proof (pow10_pos e) as Hpos.
  unfold tickStep. cbn [Num.div Num.of_Q]. change (Qeq_bool 4 0) with false. cbn iota.
  unfold orElse. rewrite (proj2 (Qeq_bool_false (m / 4) 0)) by lra.
  unfold magnitudeOf. rewrite (proj2 (Qlt_bool_iff 0 (m / 4))) by exact Hr.
  fold e. rewrite !div_Some by lra.
  unfold Num.geb, Num.leb, Num.cmp, Num.of_Q, Num.mul, Num.lift2.
  destruct (Qle_bool 5 (m / 4 / 10 ^ e)) eqn:H5.
  - apply Qle_bool_iff in H5. exists 5, e, (5 * 10 ^ e).
    repeat split; try reflexivity; try assumption. right. right. now split.
  - apply Qle_bool_false in H5.
    destruct (Qle_bool 2 (m / 4 / 10 ^ e)) eqn:H2.
    + apply Qle_bool_iff in H2. exists 2, e, (2 * 10 ^ e).
      repeat split; try reflexivity; try assumption. right. left. now repeat split.
    + apply Qle_bool_false in H2. exists 1, e, (10 ^ e).
      repeat split; try reflexivity; try assumption; [ring | left; now split].
Qed.

Lemma inject_nat_succ (n : nat) :
  inject_Z (Z.of_nat (S n)) == inject_Z (Z.of_nat n) + 1.
Proof. rewrite Nat2Z.inj_succ. unfold Z.succ. now rewrite inject_Z_plus. Qed.

Lemma Forall2_isNum_ext (l : list num) (f g : nat -> Q) (js : list nat) :
  (forall j, f j == g j) ->
  Forall2 isNum l (map f js) -> Forall2 isNum l (map g js).
Proof.
  intros Hfg. revert l. induction js as [| j js IH]; intros l H; cbn in *.
  - apply Forall2_nil_inv_r in H as ->. constructor.
  - apply Forall2_cons_inv_r in H as (a & l' & (x & -> & Hx) & Hl & ->).
    constructor; [| now apply IH].
    exists x. split; [reflexivity |]. now rewrite <- Hfg.
Qed.

(** The loop pushes [value], [value + step], ... while they do not exceed
    [limit]; [n] counts the steps that fit. *)
Lemma ticksLoop_spec (limit step : Q) (n : nat) :
  0 < step ->
  forall (fuel : nat) (value : Q),
    (S n < fuel)%nat ->
    value + inject_Z (Z.of_nat n) * step <= limit ->
    limit < value + (inject_Z (Z.of_nat n) + 1) * step ->
    Forall2 isNum (ticksLoop fuel (Some limit) (Some step) (Some value))
      (map (fun j => value + inject_Z (Z.of_nat j) * step) (seq 0 (S n))).
Proof.
  intros Hs. induction n as [| n IH]; intros fuel value Hf Hlo Hhi.
  - destruct fuel as [| [| fuel]]; [lia | lia |].
    change (inject_Z (Z.of_nat 0)) with 0 in Hlo, Hhi.
    cbn [ticksLoop Num.leb Num.cmp Num.add Num.lift2].
    rewrite (proj2 (Qle_bool_iff value limit)) by lra.
    rewrite (proj2 (Qle_bool_false (value + step) limit)) by lra.
    cbn [map seq]. repeat constructor. exists value. split; [reflexivity |].
    change (inject_Z (Z.of_nat 0)) with 0. ring.
  - destruct fuel as [| fuel]; [lia |].
    rewrite inject_nat_succ in Hlo, Hhi.
    assert (0 <= inject_Z (Z.of_nat n)) by (rewrite <- (Zle_Qle 0); lia).
    cbn [ticksLoop Num.leb Num.cmp Num.add Num.lift2].
    rewrite (proj2 (Qle_bool_iff value limit)) by nra.
    change (seq 0 (S (S n))) with (0%nat :: seq 1 (S n)).
    rewrite <- seq_shift, map_cons, map_map.
    constructor;
      [exists value; split;
         [reflexivity | change (inject_Z (Z.of_nat 0)) with 0; ring] |].
    apply (Forall2_isNum_ext _
             (fun j => value + step + inject_Z (Z.of_nat j) * step)).
    + intros j. rewrite inject_nat_succ. ring.
    + apply IH; [lia | nra | nra].
Qed.

(** Once the loop test has failed, more fuel changes nothing. *)
Lemma ticksLoop_stable (limit step : Q) (n : nat) :
  0 < step ->
  forall (fuel1 fuel2 : nat) (value : Q),
    (n < fuel1)%nat -> (n < fuel2)%nat ->
    limit < value + inject_Z (Z.of_nat n) * step ->
    ticksLoop fuel1 (Some limit) (Some step) (Some value)
    = ticksLoop fuel2 (Some limit) (Some step) (Some value).
Proof.
  intros Hs. induction n as [| n IH]; intros fuel1 fuel2 value H1 H2 Hlim.
  - destruct fuel1 as [| fuel1], fuel2 as [| fuel2]; try lia.
    change (inject_Z (Z.of_nat 0)) with 0 in Hlim.
    cbn [ticksLoop Num.leb Num.cmp].
    rewrite (proj2 (Qle_bool_false value limit)) by lra. reflexivity.
  - destruct fuel1 as [| fuel1], fuel2 as [| fuel2]; try lia.
    cbn [ticksLoop Num.leb Num.cmp Num.add Num.lift2].
    destruct (Qle_bool value limit); [| reflexivity].
    f_equal. apply IH; [lia | lia |].
    rewrite inject_nat_succ in Hlim. lra.
Qed.

Lemma Qhalf (q : Q) : q / 2 == q * 0.5.
Proof. field. Qed.

Lemma floor_multiple (N x s L : Q) :
  0 < s -> x * s == L -> N <= x -> x < N + 1 ->
  N * s <= L /\ L < (N + 1) * s.
Proof. intros Hs E H1 H2. split; nra. Qed.

Lemma ticks_lookup (ticks : list num) (f : nat -> Q) (n : nat) :
  Forall2 isNum ticks (map f (seq 0 (S n))) ->
  length ticks = S n /\
  (forall i, (i <= n)%nat -> exists x, ticks !! i = Some (Some x) /\ x == f i) /\
  (forall i a, ticks !! i = Some a -> (i <= n)%nat /\ exists x, a = Some x /\ x == f i).
Proof.
  intros H.
  assert (Hlen : length ticks = S n).
  { rewrite (Forall2_length _ _ _ H), length_map, length_seq. reflexivity. }
  assert (Hf : forall i, (i <= n)%nat -> map f (seq 0 (S n)) !! i = Some (f i)).
  { intros i Hi. change (map f (seq 0 (S n))) with (f <$> seq 0 (S n)).
    rewrite list_lookup_fmap, lookup_seq_lt by lia. reflexivity. }
  split; [exact Hlen |]. split.
  - intros i Hi. destruct (Forall2_lookup_r _ _ _ i _ H (Hf i Hi)) as (a & Ha & x & -> & Hx).
    exists x. split; [exact Ha | exact Hx].
  - intros i a Ha. assert (Hi : (i <= n)%nat).
    { apply lookup_lt_Some in Ha. unfold Num.num in Hlen. lia. }
    split; [exact Hi |].
    destruct (Forall2_lookup_r _ _ _ i _ H (Hf i Hi)) as (a' & Ha' & x & -> & Hx).
    pose proof (eq_trans (eq_sym Ha) Ha') as E. injection E as ->.
    exists x. split; [reflexivity | exact Hx].
Qed.

(** The ticks in exact arithmetic.  [getLinearTicks] returns [0] alone for
    a maximum that is not finite or not positive.  For a positive maximum
    the step is [k * 10 ^ e]
    with [10 ^ e <= maxTokens / 4 < 10 ^ (e + 1)] and [k] in 1, 2, 5 chosen
    by the 1-2-5 rule; the ticks are 0, step, ..., [n * step], where
    [n * step] is the largest multiple not above [maxTokens + step / 2];
    they start at 0 and increase strictly, the last one lies within half a
    step of [maxTokens], and the loop has ended by its test: more fuel
    gives the same list. *)
Theorem getLinearTicks_spec (maxTokens : Q) :
  getLinearTicks None = [Some 0] /\
  (maxTokens <= 0 -> getLinearTicks (Some maxTokens) = [Some 0]) /\
  (0 < maxTokens ->
   exists (k : Q) (e : Z) (n : nat),
     let roughStep := maxTokens / 4 in
     let step := k * 10 ^ e in
     let ticks := getLinearTicks (Some maxTokens) in
     10 ^ e <= roughStep < 10 ^ (e + 1) /\
     (k = 1 /\ roughStep / 10 ^ e < 2 \/
      k = 2 /\ 2 <= roughStep / 10 ^ e < 5 \/
      k = 5 /\ 5 <= roughStep / 10 ^ e) /\
     isNum (tickStep (Some maxTokens)) step /\
     Forall2 isNum ticks (map (fun j => inject_Z (Z.of_nat j) * step) (seq 0 (S n))) /\
     inject_Z (Z.of_nat n) * step <= maxTokens + step / 2 /\
     maxTokens + step / 2 < (inject_Z (Z.of_nat n) + 1) * step /\
     (exists first, ticks !! 0%nat = Some first /\ isNum first 0) /\
     (forall i a b, ticks !! i = Some a -> ticks !! S i = Some b ->
        exists x y, a = Some x /\ b = Some y /\ x < y) /\
     (exists last, ticks !! n = Some (Some last) /\ length ticks = S n /\
        maxTokens - step / 2 < last /\ last <= maxTokens + step / 2) /\
     (forall fuel s, tickStep (Some maxTokens) = Some s ->
        (ticksFuel (Some (maxTokens + s * 0.5)%Q) (Some s) <= fuel)%nat ->
        ticksLoop fuel (Some (maxTokens + s * 0.5)) (Some s) 0%Q = ticks)).
Proof.
  split; [reflexivity |]. split.
  { intros Hle. unfold getLinearTicks. now rewrite (proj2 (Qle_bool_iff maxTokens 0)). }
  intros Hm.
  destruct (tickStep_spec maxTokens Hm) as (k & e & s & Es & Hs & _ & He & Hk).
  pose proof (pow10_pos e) as Hpos.
  assert (Hk1 : 1 <= k) by (destruct Hk as [[-> _] | [[-> _] | [-> _]]]; discriminate).
  set (P := 10 ^ e) in *.
  assert (Hs0 : 0 < s) by (rewrite Hs; nra).
  set (L := maxTokens + s * 0.5).
  assert (HLs : exists x, x == L / s /\ x * s == L /\ 0 <= x).
  { exists (L / s). split; [reflexivity |]. split; [field; lra |].
    apply Qle_shift_div_l; [exact Hs0 | unfold L; lra]. }
  destruct HLs as (x & Ex & Exs & Hx0).
  set (n := Z.to_nat (Qfloor (L / s))).
  assert (Hn : inject_Z (Z.of_nat n) <= x /\ x < inject_Z (Z.of_nat n) + 1).
  { unfold n. rewrite Z2Nat.id.
    - rewrite Ex. split; [apply Qfloor_le |].
      rewrite <- (inject_Z_plus _ 1). apply Qlt_floor.
    - change 0%Z with (Qfloor 0). apply Qfloor_resp_le. now rewrite <- Ex. }
  assert (Eticks : getLinearTicks (Some maxTokens)
                   = ticksLoop (S (S n)) (Some L) (Some s) (Some 0)).
  { unfold getLinearTicks. rewrite (proj2 (Qle_bool_false maxTokens 0)) by exact Hm.
    cbn zeta. rewrite Es. cbn [Num.add Num.mul Num.lift2 Num.of_Q]. fold L.
    unfold ticksFuel. rewrite div_Some by lra. reflexivity. }
  assert (HF : Forall2 isNum (getLinearTicks (Some maxTokens))
                 (map (fun j => inject_Z (Z.of_nat j) * (k * P)) (seq 0 (S n)))).
  { rewrite Eticks.
    apply (Forall2_isNum_ext _ (fun j => 0 + inject_Z (Z.of_nat j) * s)).
    - intros j. rewrite Hs. ring.
    - destruct (floor_multiple _ x s L Hs0 Exs (proj1 Hn) (proj2 Hn)) as [H1 H2].
      apply ticksLoop_spec; [exact Hs0 | lia | lra | lra]. }
  destruct (ticks_lookup _ _ _ HF) as (Hlen & Hat & Hof).
  exists k, e, n. cbn zeta. fold P.
  split; [exact He |]. split; [exact Hk |].
  split; [exists s; split; [exact Es | exact Hs] |].
  split; [exact HF |].
  destruct (floor_multiple _ x s L Hs0 Exs (proj1 Hn) (proj2 Hn)) as [HloL HhiL].
  assert (EL : L == maxTokens + k * P / 2) by (unfold L; rewrite Hs; field).
  assert (Hlo : inject_Z (Z.of_nat n) * (k * P) <= maxTokens + k * P / 2).
  { rewrite <- EL, <- Hs. exact HloL. }
  assert (Hhi : maxTokens + k * P / 2 < (inject_Z (Z.of_nat n) + 1) * (k * P)).
  { rewrite <- EL, <- Hs. exact HhiL. }
  split; [exact Hlo |]. split; [exact Hhi |].
  assert (Hst : 0 < k * P) by (rewrite <- Hs; exact Hs0).
  set (st := k * P) in *. clearbody st.
  rewrite Qhalf in Hlo, Hhi.
  split.
  { destruct (Hat 0%nat ltac:(lia)) as (x0 & E0 & Hx0').
    exists (Some x0). split; [exact E0 |]. exists x0. split; [reflexivity |].
    rewrite Hx0'. change (inject_Z (Z.of_nat 0)) with 0. ring. }
  split.
  { intros i a b Ha Hb.
    destruct (Hof i a Ha) as (_ & xa & -> & Hxa).
    destruct (Hof (S i) b Hb) as (_ & xb & -> & Hxb).
    exists xa, xb. split; [reflexivity |]. split; [reflexivity |].
    rewrite Hxa, Hxb, inject_nat_succ. lra. }
  split.
  { destruct (Hat n ltac:(lia)) as (xl & El & Hxl).
    exists xl. split; [exact El |]. split; [exact Hlen |]. rewrite Hxl, Qhalf. split; lra. }
  intros fuel s' Es' Hfuel. rewrite Es in Es'. injection Es' as <-. fold L in Hfuel |- *.
  rewrite Eticks.
  assert (Efuel : ticksFuel (Some L) (Some s) = S (S n)).
  { unfold ticksFuel. rewrite div_Some by lra. reflexivity. }
  rewrite Efuel in Hfuel.
  apply (ticksLoop_stable L s (S n) Hs0); [lia | lia |].
  rewrite inject_nat_succ. lra.
Qed.


End TickFacts.

(** * Further properties of the script *)

(** ** Geometry of the bar rectangles *)

Section GeometryFacts.

(** Width at least 3 and gap between 1 and 10, for two or more bars on
    any finite width; the bars and gaps fill the width when it is at least
    [4 * n - 1]. *)
Lemma barPacking_finite (W : Q) (n : nat) :
  (2 <= n)%nat ->
  let N := inject_Z (Z.of_nat n) in
  exists width gap : Q,
    barPacking (Some W) n = (Some width, Some gap) /\
    3 <= width /\ 1 <= gap <= 10 /\
    (4 * N - 1 <= W -> width * N + gap * (N - 1) == W).
Proof.
  intros Hn N.
  assert (HN : 2 <= N) by (apply (inject_nat_ge n 2), Hn).
  destruct (provisionalGap_Some W n Hn) as [Hw Hg]. fold N in Hw, Hg.
  unfold barPacking. replace (1 <? n)%nat with true by (symmetry; apply Nat.ltb_lt; lia).
  rewrite Hw, Hg. unfold Num.of_nat. fold N.
  set (pw := Qmax 3 (W * 0.7 / N)) in *.
  set (g0 := (W - pw * N) / (N - 1)) in *.
  assert (Hpw : 3 <= pw) by apply Q.le_max_l.
  assert (Eg : g0 * (N - 1) == W - pw * N) by (unfold g0; field; lra).
  cbn. rewrite (proj2 (Qeq_bool_false N 0)) by lra.
  destruct (Num.Qlt_bool g0 1) eqn:Hlt1.
  - set (w1 := (W - 1 * (N - 1)) / N).
    assert (Ew1 : w1 * N == W - (N - 1)) by (unfold w1; field; lra).
    exists (Qmax 3 w1), 1. split; [reflexivity |].
    split; [apply Q.le_max_l |]. split; [lra |].
    destruct (Qmax_case_eq 3 w1) as [[Hle E] | [Hle E]]; rewrite E; intros; nra.
  - apply Qlt_bool_false in Hlt1.
    destruct (Num.Qlt_bool 10 g0) eqn:Hgt10.
    + apply Qlt_bool_iff in Hgt10.
      set (w1 := (W - 10 * (N - 1)) / N).
      assert (Ew1 : w1 * N == W - 10 * (N - 1)) by (unfold w1; field; lra).
      exists w1, 10. split; [reflexivity |]. repeat split; intros; nra.
    + apply Qlt_bool_false in Hgt10.
      exists pw, g0. split; [reflexivity |]. repeat split; try assumption; intros; nra.
Qed.

Lemma chartWidthOf_usable (w : World) : chartWidthOf w = Some (usableWidth w).
Proof. reflexivity. Qed.

Lemma chartHeightOf_usable (w : World) : chartHeightOf w = Some (usableHeight w).
Proof. reflexivity. Qed.

(** The packing of any layout is finite, with a positive gap. *)
Lemma layout_packing (w : World) :
  exists width gap : Q,
    barPacking (chartWidthOf w) (length (chartData (state w))) = (Some width, Some gap) /\
    0 < gap /\
    ((2 <= length (chartData (state w)))%nat -> 3 <= width /\ 1 <= gap <= 10).
Proof.
  rewrite chartWidthOf_usable.
  destruct (le_lt_dec 2 (length (chartData (state w)))) as [Hn | Hn].
  - destruct (barPacking_finite (usableWidth w) _ Hn) as (width & gap & E & Hw & Hg & _).
    exists width, gap. split; [exact E |]. split; [lra |]. intros _. split; assumption.
  - exists (usableWidth w), 10. split; [| split; [reflexivity | lia]].
    unfold barPacking. replace (1 <? _)%nat with false; [reflexivity |].
    symmetry. apply Nat.ltb_ge. lia.
Qed.

(** Rectangle [i] of a layout, read off [entries.forEach]. *)
Lemma layoutBars_lookup (w : World) (width gap : num) (i : nat) (e : Bucket) :
  barPacking (chartWidthOf w) (length (chartData (state w))) = (width, gap) ->
  chartData (state w) !! i = Some e ->
  layoutBars w !! i
  = Some (barRect (chartData (state w)) (chartHeightOf w) width gap i e).
Proof.
  intros E Hi. unfold layoutBars. rewrite E, list_lookup_imap, Hi. reflexivity.
Qed.

Lemma layoutBars_lookup_inv (w : World) (i : nat) (b : BarRect) :
  layoutBars w !! i = Some b ->
  exists e, chartData (state w) !! i = Some e.
Proof.
  unfold layoutBars. destruct (barPacking _ _) as [bw bg].
  rewrite list_lookup_imap. destruct (chartData (state w) !! i) as [e |]; [| discriminate].
  intros _. now exists e.
Qed.

Lemma layoutBars_length (w : World) :
  length (layoutBars w) = length (chartData (state w)).
Proof.
  unfold layoutBars. destruct (barPacking _ _) as [bw bg]. apply length_imap.
Qed.

(** The horizontal extent of rectangle [i]. *)
Lemma layoutBars_extent (w : World) (width gap : Q) (i : nat) (b : BarRect) :
  barPacking (chartWidthOf w) (length (chartData (state w))) = (Some width, Some gap) ->
  layoutBars w !! i = Some b ->
  index b = i /\
  bar_x b = Some (56 + inject_Z (Z.of_nat i) * (width + gap)) /\
  bar_width b = Some width.
Proof.
  intros E Hb. destruct (layoutBars_lookup_inv w i b Hb) as (e & He).
  rewrite (layoutBars_lookup w _ _ i e E He) in Hb. injection Hb as <-.
  repeat split; reflexivity.
Qed.

Lemma hitTest_true_x (x y bx bw : Q) (b : BarRect) :
  bar_x b = Some bx -> bar_width b = Some bw ->
  hitTest (Some x) (Some y) b = true -> bx <= x <= bx + bw.
Proof.
  intros Ex Ew. unfold hitTest. rewrite Ex, Ew. cbn.
  rewrite !andb_true_iff, !Qle_bool_iff. tauto.
Qed.

Lemma hitTest_false_x (x y bx bw : Q) (b : BarRect) :
  bar_x b = Some bx -> bar_width b = Some bw ->
  x < bx \/ bx + bw < x ->
  hitTest (Some x) (Some y) b = false.
Proof.
  intros Ex Ew Hout. unfold hitTest. rewrite Ex, Ew. cbn.
  destruct Hout as [H | H].
  - rewrite (proj2 (Qle_bool_false bx x)) by exact H. reflexivity.
  - rewrite (proj2 (Qle_bool_false x (bx + bw))) by exact H.
    now rewrite andb_false_r.
Qed.

(** X1.  In every layout the rectangles are laid out left to right and
    kept apart: two rectangles of one layout have the same width, at
    least 3, and the later one starts at least one unit (the smallest
    gap) after the right edge of the earlier one, so no two overlap. *)
Theorem layout_bars_separated (w : World) (i j : nat) (bi bj : BarRect) :
  layoutBars w !! i = Some bi -> layoutBars w !! j = Some bj -> (i < j)%nat ->
  exists xi wi xj : Q,
    bar_x bi = Some xi /\ bar_width bi = Some wi /\
    bar_x bj = Some xj /\ bar_width bj = Some wi /\
    3 <= wi /\ xi + wi + 1 <= xj.
Proof.
  intros Hi Hj Hij.
  destruct (layout_packing w) as (width & gap & E & Hgap & Hbounds).
  assert (Hlen : (2 <= length (chartData (state w)))%nat).
  { apply lookup_lt_Some in Hj. rewrite layoutBars_length in Hj. lia. }
  destruct (Hbounds Hlen) as (Hw & Hg1 & _).
  destruct (layoutBars_extent w width gap i bi E Hi) as (_ & Exi & Ewi).
  destruct (layoutBars_extent w width gap j bj E Hj) as (_ & Exj & Ewj).
  eexists _, _, _. split; [exact Exi |]. split; [exact Ewi |]. split; [exact Exj |].
  split; [exact Ewj |]. split; [exact Hw |].
  assert (Hinj : inject_Z (Z.of_nat i) + 1 <= inject_Z (Z.of_nat j)).
  { rewrite <- (inject_Z_plus _ 1), <- Zle_Qle. lia. }
  nra.
Qed.

Lemma layout_bars_separated_witness :
  exists xi wi xj : Q,
    bar_x (mkBarRect 0 (Some (56 + 0 * ((234 - 10 * (3 - 1)) / 3 + 10)))
             (Some (24 + (142 - 100 / 400 * 142)))
             (Some ((234 - 10 * (3 - 1)) / 3)) (Some (100 / 400 * 142))) = Some xi /\
    Some ((234 - 10 * (3 - 1)) / 3) = Some wi /\
    Some (56 + 2 * ((234 - 10 * (3 - 1)) / 3 + 10)) = Some xj /\
    Some ((234 - 10 * (3 - 1)) / 3) = Some wi /\
    3 <= wi /\ xi + wi + 1 <= xj.
Proof.
  apply (layout_bars_separated demoWorld 0 2
           (mkBarRect 0 (Some (56 + 0 * ((234 - 10 * (3 - 1)) / 3 + 10)))
              (Some (24 + (142 - 100 / 400 * 142)))
              (Some ((234 - 10 * (3 - 1)) / 3)) (Some (100 / 400 * 142)))
           (mkBarRect 2 (Some (56 + 2 * ((234 - 10 * (3 - 1)) / 3 + 10)))
              (Some (24 + (142 - 100 / 400 * 142)))
              (Some ((234 - 10 * (3 - 1)) / 3)) (Some (100 / 400 * 142))));
    [reflexivity | reflexivity | lia].
Defined.

(** X2.  On the rectangles of a layout the hit test is exact: the pointer
    lies on rectangle [i], edges included, if and only if [find] returns
    that rectangle, so the hover index is [i].  Nothing is assumed on the
    canvas size or on the data. *)
Theorem layout_hit_exact (w : World) (x y : Q) (i : nat) :
  barRects (state w) = layoutBars w ->
  (exists b, layoutBars w !! i = Some b /\ onRect x y b)
  <-> nextIndex (Some x) (Some y) w = Some i.
Proof.
  intros Hsync. unfold nextIndex. rewrite Hsync. split.
  - intros (b & Hb & Hon). apply hitTest_onRect in Hon as Hhit.
    destruct (layout_packing w) as (width & gap & E & Hgap & Hbounds).
    destruct (layoutBars_extent w width gap i b E Hb) as (Eidx & Ex & Ew).
    destruct (hitTest_true_x x y _ _ b Ex Ew Hhit) as [Hx1 Hx2].
    rewrite (find_only_match _ _ i b Hb Hhit); [cbn; now rewrite Eidx |].
    intros j b' Hne Hb'.
    destruct (layoutBars_extent w width gap j b' E Hb') as (_ & Ex' & Ew').
    assert (Hlen : (2 <= length (chartData (state w)))%nat).
    { apply lookup_lt_Some in Hb, Hb'. rewrite layoutBars_length in Hb, Hb'. lia. }
    destruct (Hbounds Hlen) as (Hw & Hg1 & _).
    apply (hitTest_false_x x y _ _ b' Ex' Ew').
    destruct (Nat.lt_total j i) as [Hlt | [-> | Hgt]]; [| contradiction |].
    + right.
      assert (Hinj : inject_Z (Z.of_nat j) + 1 <= inject_Z (Z.of_nat i)).
      { rewrite <- (inject_Z_plus _ 1), <- Zle_Qle. lia. }
      nra.
    + left.
      assert (Hinj : inject_Z (Z.of_nat i) + 1 <= inject_Z (Z.of_nat j)).
      { rewrite <- (inject_Z_plus _ 1), <- Zle_Qle. lia. }
      nra.
  - destruct (find _ _) as [b |] eqn:Hfind; [| discriminate].
    cbn. intros [= <-].
    apply find_some in Hfind as [Hin Hhit].
    apply list_elem_of_In, list_elem_of_lookup in Hin as (k & Hk).
    rewrite (layoutBars_index w k b Hk). exists b.
    split; [exact Hk | now apply hitTest_onRect].
Qed.

(** In the scenario the pointer at (150, 24) is on the top edge of the
    middle bar and selects it; the pointer at (60, 50) selects nothing,
    so it is on no rectangle, although it is in the column of the first
    bar. *)
Lemma layout_hit_exact_witness :
  nextIndex (Some 150) (Some 24) demoWorld = Some 1%nat /\
  ~ (exists b, layoutBars demoWorld !! 0%nat = Some b /\ onRect 60 50 b).
Proof.
  split.
  - apply (proj1 (layout_hit_exact demoWorld 150 24 1 eq_refl)).
    eexists. split; [reflexivity |].
    eexists _, _, _, _.
    split; [reflexivity |]. split; [reflexivity |]. split; [reflexivity |].
    split; [reflexivity |]. split; split; discriminate.
  - intros H. apply (proj1 (layout_hit_exact demoWorld 60 50 0 eq_refl)) in H.
    discriminate H.
Defined.

Lemma scaled_fraction (t v H : Q) :
  0 < v -> 0 <= t <= v -> 0 <= H -> 0 <= t / v * H <= H.
Proof.
  intros Hv [Ht0 Htv] HH.
  assert (E : t / v * v == t) by (field; lra).
  set (r := t / v) in *.
  assert (Hr : 0 <= r <= 1) by (split; nra).
  split; nra.
Qed.

(** The height of a bar whose count is not negative lies between 0 and
    the usable height. *)
Lemma heightPx_bounds (entries : list Bucket) (H : Q) (i : nat) (e : Bucket) :
  nonNegative entries -> 0 <= H -> entries !! i = Some e ->
  exists h : Q, heightPx entries (Some H) e = Some h /\ 0 <= h <= H.
Proof.
  intros Hpos HH Hi.
  destruct (maxValue_spec entries) as (m & v & Em & Ev & Hm & Hv & Hv0 & Hv1).
  destruct (maxTokens_spec entries) as (m' & Em' & _ & Hub & _).
  rewrite Em in Em'. injection Em' as <-.
  destruct (entryTokens_finite e) as (t & Et & Hnone & Hsome).
  assert (Ht0 : 0 <= t).
  { destruct (tokens e) as [q |] eqn:Eq.
    - rewrite (Hsome q eq_refl). apply (Hpos i e q Hi Eq).
    - rewrite (Hnone eq_refl). lra. }
  pose proof (Hub i e t Hi Et) as Htm.
  exists (t / v * H). split; [now apply heightPx_spec |].
  apply scaled_fraction; [exact Hv | | exact HH].
  split; [exact Ht0 |].
  destruct (Qeq_dec m 0) as [E0 | Hne].
  - rewrite (Hv0 E0). lra.
  - now rewrite (Hv1 Hne).
Qed.

(** X3.  When no count is negative and the usable height is not, every
    rectangle stands on the baseline of the plot and stays below its top:
    its height is between 0 and the usable height, and its bottom edge is
    at 24 plus the usable height. *)
Theorem layout_bars_on_baseline (w : World) (i : nat) (b : BarRect) :
  nonNegative (chartData (state w)) -> 0 <= usableHeight w ->
  layoutBars w !! i = Some b ->
  exists y h : Q,
    bar_y b = Some y /\ bar_height b = Some h /\
    0 <= h <= usableHeight w /\ 24 <= y /\ y + h == 24 + usableHeight w.
Proof.
  intros Hpos HH Hb.
  destruct (layout_packing w) as (width & gap & E & _ & _).
  destruct (layoutBars_lookup_inv w i b Hb) as (e & He).
  rewrite (layoutBars_lookup w _ _ i e E He) in Hb. injection Hb as <-.
  destruct (heightPx_bounds _ _ i e Hpos HH He) as (h & Eh & Hh).
  unfold barRect. cbn [bar_y bar_height]. rewrite chartHeightOf_usable, Eh.
  exists (24 + (usableHeight w - h)), h.
  split; [reflexivity |]. split; [reflexivity |]. split; [exact Hh |].
  split; [lra | ring].
Qed.

Lemma layout_bars_on_baseline_witness :
  exists y h : Q,
    Some (24 + (142 - 100 / 400 * 142)) = Some y /\ Some (100 / 400 * 142) = Some h /\
    0 <= h <= usableHeight demoWorld /\ 24 <= y /\ y + h == 24 + usableHeight demoWorld.
Proof.
  apply (layout_bars_on_baseline demoWorld 0
           (mkBarRect 0 (Some (56 + 0 * ((234 - 10 * (3 - 1)) / 3 + 10)))
              (Some (24 + (142 - 100 / 400 * 142)))
              (Some ((234 - 10 * (3 - 1)) / 3)) (Some (100 / 400 * 142)))).
  - intros [| [| [| i]]] e q Hi Hq; try discriminate;
      injection Hi as <-; injection Hq as <-; discriminate.
  - discriminate.
  - reflexivity.
Defined.

(** X4.  When the usable width is at least [4 * N - 1] for [N >= 1] bars,
    every rectangle lies between the left edge of the plot, at 56, and its
    right edge, and the last rectangle ends exactly on the right edge. *)
Theorem layout_bars_fit_width (w : World) (i : nat) (b : BarRect) :
  let N := inject_Z (Z.of_nat (length (chartData (state w)))) in
  4 * N - 1 <= usableWidth w ->
  layoutBars w !! i = Some b ->
  exists x width : Q,
    bar_x b = Some x /\ bar_width b = Some width /\
    56 <= x /\ x + width <= 56 + usableWidth w /\
    (S i = length (chartData (state w)) -> x + width == 56 + usableWidth w).
Proof.
  intros N HW Hb.
  assert (Hi : (i < length (chartData (state w)))%nat).
  { apply lookup_lt_Some in Hb. now rewrite layoutBars_length in Hb. }
  assert (HiN : inject_Z (Z.of_nat i) + 1 <= N).
  { unfold N. rewrite <- (inject_Z_plus _ 1), <- Zle_Qle. lia. }
  assert (Hi0 : 0 <= inject_Z (Z.of_nat i)) by (rewrite <- (Zle_Qle 0); lia).
  assert (Hlast : S i = length (chartData (state w)) -> inject_Z (Z.of_nat i) + 1 == N).
  { intros Hl. unfold N. rewrite <- Hl. now rewrite inject_nat_succ. }
  destruct (le_lt_dec 2 (length (chartData (state w)))) as [Hn | Hn].
  - destruct (barPacking_finite (usableWidth w) _ Hn) as (width & gap & E & Hw & Hg & Hfill).
    fold N in Hfill. specialize (Hfill HW).
    rewrite <- chartWidthOf_usable in E.
    destruct (layoutBars_extent w width gap i b E Hb) as (_ & Ex & Ew).
    eexists _, _. split; [exact Ex |]. split; [exact Ew |].
    split; [nra |]. split; [nra |].
    intros Hl. specialize (Hlast Hl). nra.
  - assert (Hone : length (chartData (state w)) = 1%nat) by lia.
    assert (i = 0%nat) as -> by lia.
    assert (E : barPacking (chartWidthOf w) (length (chartData (state w)))
                = (Some (usableWidth w), Some 10)) by (rewrite Hone; reflexivity).
    destruct (layoutBars_extent w _ _ 0 b E Hb) as (_ & Ex & Ew).
    eexists _, _. split; [exact Ex |]. split; [exact Ew |].
    change (inject_Z (Z.of_nat 0)) with 0.
    split; [lra |]. split; [lra |]. intros _. ring.
Qed.

Lemma layout_bars_fit_width_witness :
  exists x width : Q,
    Some (56 + 2 * ((234 - 10 * (3 - 1)) / 3 + 10)) = Some x /\
    Some ((234 - 10 * (3 - 1)) / 3) = Some width /\
    56 <= x /\ x + width <= 56 + usableWidth demoWorld /\
    (3%nat = length (chartData (state demoWorld)) ->
     x + width == 56 + usableWidth demoWorld).
Proof.
  apply (layout_bars_fit_width demoWorld 2
           (mkBarRect 2 (Some (56 + 2 * ((234 - 10 * (3 - 1)) / 3 + 10)))
              (Some (24 + (142 - 100 / 400 * 142)))
              (Some ((234 - 10 * (3 - 1)) / 3)) (Some (100 / 400 * 142))));
    [discriminate | reflexivity].
Defined.

(** X21.  The degenerate layouts: no bucket gives no rectangle; a single
    bucket gives one rectangle that starts at the left edge of the plot
    and is as wide as the usable width, of the full usable height when its
    count is positive and of height 0 when its count is 0 or absent.  No
    division by zero occurs in either case: every field is finite. *)
Theorem layout_of_one_bucket (w : World) (e : Bucket) :
  (chartData (state w) = [] -> layoutBars w = []) /\
  (chartData (state w) = [e] ->
   exists x h : Q,
     layoutBars w
     = [mkBarRect 0 (Some x) (Some (24 + (usableHeight w - h)))
          (Some (usableWidth w)) (Some h)] /\
     x == 56 /\
     (forall q, tokens e = Some q -> 0 < q -> h == usableHeight w) /\
     (tokens e = None \/ tokens e = Some 0 -> h == 0)).
Proof.
  split.
  - intros E. unfold layoutBars. rewrite E. reflexivity.
  - intros E.
    destruct (maxValue_spec [e]) as (m & v & Em & Ev & Hm & Hv & Hv0 & Hv1).
    destruct (maxTokens_spec [e]) as (m' & Em' & _ & Hub & Hwit).
    rewrite Em in Em'. injection Em' as <-.
    destruct (entryTokens_finite e) as (t & Et & Hnone & Hsome).
    pose proof (heightPx_spec [e] (usableHeight w) e t v Et Ev Hv) as Eh.
    exists (56 + 0 * (usableWidth w + 10)), (t / v * usableHeight w).
    split.
    { unfold layoutBars. rewrite E. cbn [length]. rewrite chartWidthOf_usable.
      cbn [barPacking Nat.ltb Nat.leb imap]. unfold barRect.
      rewrite chartHeightOf_usable, Eh. reflexivity. }
    split; [ring |].
    pose proof (Hub 0%nat e t eq_refl Et) as Htm.
    assert (Hmt : m == 0 \/ m == t).
    { destruct Hwit as [H0 | ([| i] & e' & t' & Hi & Et' & Hmt)]; [now left | | discriminate].
      injection Hi as <-. rewrite Et in Et'. injection Et' as <-. now right. }
    split.
    + intros q Eq Hq. rewrite (Hsome q Eq) in Htm.
      assert (Etq : t == q) by apply (Hsome q Eq).
      destruct Hmt as [H0 | Hmt]; [lra |].
      rewrite Hv1 by lra. rewrite Hmt. field. lra.
    + intros Hz. assert (Et0 : t == 0).
      { destruct Hz as [Hz | Hz]; [now rewrite (Hnone Hz) | apply (Hsome 0 Hz)]. }
      rewrite Et0. field. lra.
Qed.

Lemma layout_of_one_bucket_witness :
  layoutBars (on_state (set_chartData []) demoWorld) = [].
Proof.
  apply (proj1 (layout_of_one_bucket (on_state (set_chartData []) demoWorld)
                  (mkBucket "t0" None))).
  reflexivity.
Defined.

End GeometryFacts.

(** ** What a frame holds *)

Section FrameFacts.

Lemma countOps_app (kind : DrawOp -> bool) (f g : list DrawOp) :
  countOps kind (f ++ g) = (countOps kind f + countOps kind g)%nat.
Proof. unfold countOps. now rewrite List.filter_app, length_app. Qed.

(** Gridlines and tick labels are none of the bar operations. *)
Lemma countOps_ticks (kind : DrawOp -> bool) (entries : list Bucket)
    (cw ch : num) (ticks : list num) :
  (forall y x1, kind (GridLine y x1) = false) ->
  (forall v x y, kind (TickLabel v x y) = false) ->
  countOps kind (flat_map (drawTick entries cw ch) ticks) = 0%nat.
Proof.
  intros Hg Ht. induction ticks as [| t ticks IH]; [reflexivity |].
  cbn [flat_map]. rewrite countOps_app, IH. unfold drawTick, countOps. cbn.
  now rewrite Hg, Ht.
Qed.

Lemma sum_seq_shift (c : nat -> nat) (n k : nat) :
  sum_list_with c (seq (S k) n) = sum_list_with (c ∘ S) (seq k n).
Proof. revert k. induction n as [| n IH]; intros k; cbn; [reflexivity | now rewrite IH]. Qed.

Lemma sum_seq_S (c : nat -> nat) (n : nat) :
  sum_list_with c (seq 0 (S n)) = (sum_list_with c (seq 0 n) + c n)%nat.
Proof. rewrite seq_S, sum_list_with_app. cbn. lia. Qed.

(** Counting over [entries.forEach]: bar [i] contributes [c i]. *)
Lemma countOps_forEach (kind : DrawOp -> bool) (f : nat -> Bucket -> list DrawOp)
    (c : nat -> nat) (l : list Bucket) :
  (forall i e, countOps kind (f i e) = c i) ->
  countOps kind (concat (imap f l)) = sum_list_with c (seq 0 (length l)).
Proof.
  revert f c. induction l as [| e l IH]; intros f c Hc; [reflexivity |].
  cbn [imap concat length seq sum_list_with]. rewrite countOps_app, Hc.
  f_equal. rewrite (IH (f ∘ S) (c ∘ S)) by (intros; apply Hc).
  now rewrite sum_seq_shift.
Qed.

Lemma sum_ones (n : nat) : sum_list_with (fun _ => 1%nat) (seq 0 n) = n.
Proof. induction n as [| n IH]; [reflexivity |]. rewrite sum_seq_S, IH. lia. Qed.

(** The multiples of [e] below [n] are [ceil (n / e)] many. *)
Lemma sum_multiples (e n : nat) :
  (1 <= e)%nat ->
  sum_list_with (fun i => if (i mod e =? 0)%nat then 1%nat else 0%nat) (seq 0 n)
  = ((n + e - 1) / e)%nat.
Proof.
  intros He. induction n as [| n IH].
  - cbn. symmetry. apply Nat.div_small. lia.
  - rewrite sum_seq_S, IH.
    pose proof (Nat.div_mod_eq n e) as Hdm.
    pose proof (Nat.mod_upper_bound n e ltac:(lia)) as Hr.
    set (q := (n / e)%nat) in *. set (r := (n mod e)%nat) in *.
    clearbody q r.
    destruct (Nat.eqb_spec r 0) as [E0 | Hne].
    + rewrite <- (Nat.div_unique (n + e - 1) e q (e - 1)) by lia.
      rewrite <- (Nat.div_unique (S n + e - 1) e (S q) 0) by lia. lia.
    + rewrite <- (Nat.div_unique (n + e - 1) e (S q) (r - 1)) by lia.
      rewrite <- (Nat.div_unique (S n + e - 1) e (S q) r) by lia. lia.
Qed.

Lemma sum_indicator (h n : nat) :
  sum_list_with (fun i => if decide (Some h = Some i) then 1%nat else 0%nat) (seq 0 n)
  = if decide (h < n)%nat then 1%nat else 0%nat.
Proof.
  induction n as [| n IH]; [reflexivity |].
  rewrite sum_seq_S, IH.
  destruct (decide (h = n)) as [-> | Hne].
  - rewrite (decide_True (P := Some n = Some n)) by reflexivity.
    rewrite (decide_False (P := (n < n)%nat)) by lia.
    rewrite (decide_True (P := (n < S n)%nat)) by lia. reflexivity.
  - rewrite (decide_False (P := Some h = Some n)) by congruence.
    repeat case_decide; lia.
Qed.

Lemma labelEvery_thins (n : nat) :
  (18 < n)%nat -> (1 <= labelEvery n)%nat /\ (n <= 12 * labelEvery n)%nat.
Proof.
  intros Hn. unfold labelEvery. replace (18 <? n)%nat with true by (symmetry; apply Nat.ltb_lt; lia).
  pose proof (Qle_ceiling (inject_Z (Z.of_nat n) / 12)) as Hc.
  set (c := Qceiling _) in *.
  assert (Hz : (Z.of_nat n <= 12 * c)%Z).
  { rewrite Zle_Qle, inject_Z_mult.
    assert (E : inject_Z (Z.of_nat n) / 12 * 12 == inject_Z (Z.of_nat n)) by field.
    change (inject_Z 12) with 12. lra. }
  lia.
Qed.

(** Counting one kind of bar operation in a frame. *)
Lemma countOps_paintFrame (kind : DrawOp -> bool) (c : nat -> nat) (w : World) :
  (forall a b, kind (ClearRect a b) = false) ->
  (forall y x1, kind (GridLine y x1) = false) ->
  (forall v x y, kind (TickLabel v x y) = false) ->
  (forall bw bg i e,
     countOps kind (drawBar (chartData (state w)) (granularity (state w))
                      (hoverIndex (state w)) (chartHeightOf w) bw bg i e) = c i) ->
  countOps kind (paintFrame w)
  = sum_list_with c (seq 0 (length (chartData (state w)))).
Proof.
  intros Hc Hg Ht Hbar. unfold paintFrame.
  destruct (chartSize (elements w)) as [width height] eqn:Esize.
  destruct (barPacking _ _) as [bw bg].
  rewrite !countOps_app, countOps_ticks by assumption.
  rewrite (countOps_forEach kind _ c) by (intros; apply Hbar).
  unfold countOps. cbn. now rewrite Hc.
Qed.




Lemma countOps_hover_label (w : World) :
  countOps isHoverLabel (paintFrame w)
  = match hoverIndex (state w) with
    | Some h => if decide (h < length (chartData (state w)))%nat then 1%nat else 0%nat
    | None => 0%nat
    end.
Proof.
  destruct (hoverIndex (state w)) as [h |] eqn:Eh.
  - rewrite (countOps_paintFrame isHoverLabel
               (fun i => if decide (Some h = Some i) then 1%nat else 0%nat));
      try reflexivity.
    + apply sum_indicator.
    + intros bw bg i e. unfold drawBar. rewrite Eh.
      destruct (_ =? _)%nat; destruct (decide _); reflexivity.
  - rewrite (countOps_paintFrame isHoverLabel (fun _ => 0%nat)); try reflexivity.
    + induction (length _) as [| n IH]; [reflexivity |]. now rewrite sum_seq_S, IH.
    + intros bw bg i e. unfold drawBar. rewrite Eh.
      destruct (_ =? _)%nat; reflexivity.
Qed.


End FrameFacts.

(** ** Rendering from the cache *)

Section RenderFacts.

(** What the forEach body draws for a bucket is part of the frame. *)
Lemma drawBar_in_frame (f : nat -> Bucket -> list DrawOp) (entries : list Bucket)
    (i : nat) (e : Bucket) (op : DrawOp) :
  entries !! i = Some e -> op ∈ f i e -> op ∈ concat (imap f entries).
Proof.
  intros He Hop. apply list_elem_of_In, in_concat. exists (f i e).
  split; [| now apply list_elem_of_In].
  apply list_elem_of_In, list_elem_of_lookup. exists i.
  rewrite list_lookup_imap, He. reflexivity.
Qed.



End RenderFacts.

(** ** Invariants of the running page *)

Section RunFacts.

Lemma run_invariant (I : World -> Prop) (evs : list Event) (w : World) :
  (forall ev w, I w -> I (handle ev w)) -> I w -> I (run evs w).
Proof.
  intros Hstep. revert w. induction evs as [| ev evs IH]; intros w Hw; [exact Hw |].
  cbn. apply IH, Hstep, Hw.
Qed.

Lemma drawChart_inSync (w : World) : inSync (drawChart w).
Proof. split; [reflexivity | right; reflexivity]. Qed.

Lemma setSelectedWindow_inSync (key : string) (w : World) :
  inSync w -> inSync (setSelectedWindow key w).
Proof.
  intros [H1 H2]. unfold setSelectedWindow. cbn zeta.
  destruct (cache _ !! key) as [data |]; [apply drawChart_inSync |].
  destruct (String.eqb key "custom"); [apply drawChart_inSync |].
  split; [exact H1 | exact H2].
Qed.

Lemma settle_inSync (i : nat) (o : Outcome) (w : World) :
  inSync w -> inSync (settle i o w).
Proof.
  intros [H1 H2]. unfold settle. destruct (pending w !! i) as [r |]; [| now split].
  destruct o as [data | message]; [| split; [exact H1 | exact H2]].
  destruct (handler r) as [key label |]; [apply drawChart_inSync |].
  split; [reflexivity | right; reflexivity].
Qed.

Lemma handle_inSync (ev : Event) (w : World) : inSync w -> inSync (handle ev w).
Proof.
  intros Hw. destruct ev; cbn [handle].
  - now apply setSelectedWindow_inSync.
  - unfold applyCustomRange. destruct (_ || _); [exact Hw |].
    destruct Hw as [H1 H2]. split; [exact H1 | exact H2].
  - destruct Hw as [H1 H2]. split; [exact H1 | exact H2].
  - destruct Hw as [H1 H2]. split; [exact H1 | exact H2].
  - now apply settle_inSync.
  - now apply setSelectedWindow_inSync.
  - unfold onMouseMove. destruct (decide _); [exact Hw | apply drawChart_inSync].
  - unfold onMouseLeave. destruct (decide _); [exact Hw | apply drawChart_inSync].
  - apply drawChart_inSync.
Qed.

Lemma boot_inSync (page : Elements) (weekAgo now : string) :
  inSync (boot page weekAgo now).
Proof.
  unfold boot. apply setSelectedWindow_inSync. split; [reflexivity | left; reflexivity].
Qed.


(** X9.  The chart is redrawn by the pointer only when it moves onto
    another bar or off the bars: after one move, a move to any position
    with the same hit changes nothing, redraw counter included. *)
Theorem onMouseMove_same_bar (w : World) (x y x' y' : Q) :
  barRects (state w) = layoutBars w ->
  nextIndex (Some x') (Some y') w = nextIndex (Some x) (Some y) w ->
  onMouseMove x' y' (onMouseMove x y w) = onMouseMove x y w.
Proof.
  intros Hsync Hsame. unfold onMouseMove at 2 3.
  destruct (decide (hoverIndex (state w) = nextIndex (Some x) (Some y) w)) as [E | NE].
  - unfold onMouseMove. rewrite Hsame. now rewrite decide_True by exact E.
  - unfold onMouseMove.
    set (w1 := drawChart (on_state (set_hoverIndex (nextIndex (Some x) (Some y) w)) w)).
    assert (Enext : nextIndex (Some x') (Some y') w1 = nextIndex (Some x') (Some y') w).
    { unfold nextIndex. f_equal. f_equal.
      change (barRects (state w1)) with (layoutBars w). now rewrite Hsync. }
    rewrite Enext, Hsame.
    now rewrite decide_True by reflexivity.
Qed.

Lemma onMouseMove_same_bar_witness :
  onMouseMove 160 100 (onMouseMove 150 100 demoWorld) = onMouseMove 150 100 demoWorld.
Proof.
  apply (onMouseMove_same_bar demoWorld 150 100 160 100); reflexivity.
Defined.

(** X10.  Leaving the canvas clears the hover index, and the frame then
    holds no hover label; leaving twice redraws at most once. *)
Theorem onMouseLeave_clears (w : World) :
  inSync w -> (0 < redraws w)%nat ->
  let w' := onMouseLeave w in
  hoverIndex (state w') = None /\
  countOps isHoverLabel (chart (elements w')) = 0%nat /\
  onMouseLeave w' = w'.
Proof.
  intros [_ Hframe] Hdrawn w'. subst w'. unfold onMouseLeave.
  destruct (decide (hoverIndex (state w) = None)) as [E | NE].
  - split; [exact E |]. split; [| now rewrite decide_True by exact E].
    destruct Hframe as [H0 | ->]; [lia |].
    now rewrite countOps_hover_label, E.
  - split; [reflexivity |]. split; [| reflexivity].
    change (chart (elements (drawChart ?v))) with (paintFrame v).
    now rewrite countOps_hover_label.
Qed.

Lemma onMouseLeave_clears_witness :
  hoverIndex (state (onMouseLeave (onMouseMove 150 100 demoWorld))) = None.
Proof.
  apply (onMouseLeave_clears (onMouseMove 150 100 demoWorld)).
  - apply handle_inSync with (ev := MouseMove 150 100). split; [reflexivity | right; reflexivity].
  - vm_compute. lia.
Defined.

(** Redrawing twice leaves the state and the page as redrawing once
    does; only the redraw counter moves. *)
Lemma drawChart_idempotent (w : World) :
  state (drawChart (drawChart w)) = state (drawChart w) /\
  elements (drawChart (drawChart w)) = elements (drawChart w) /\
  requests (drawChart (drawChart w)) = requests w /\
  pending (drawChart (drawChart w)) = pending w.
Proof. repeat split; reflexivity. Qed.

Lemma setSelectedWindow_rangeBox (key : string) (w : World) :
  rangeBox (elements (setSelectedWindow key w)) = String.eqb key "custom" /\
  controls (elements (setSelectedWindow key w)) = String.eqb key "custom".
Proof.
  unfold setSelectedWindow. cbn zeta.
  destruct (cache _ !! key) as [data |]; [split; reflexivity |].
  destruct (String.eqb key "custom") eqn:E; split; cbn; try reflexivity; exact E.
Qed.

(** X12.  Whatever the page and the events, the custom-range box is shown
    exactly while "custom" is the selected window. *)
Theorem run_rangeBox_follows_selection (page : Elements) (weekAgo now : string)
    (evs : list Event) :
  let w := run evs (boot page weekAgo now) in
  rangeBox (elements w) = String.eqb (selected (state w)) "custom" /\
  controls (elements w) = String.eqb (selected (state w)) "custom".
Proof.
  intros w. subst w.
  apply (run_invariant
           (fun w => rangeBox (elements w) = String.eqb (selected (state w)) "custom" /\
                     controls (elements w) = String.eqb (selected (state w)) "custom")).
  - intros ev w Hw. destruct ev; cbn [handle]; try exact Hw.
    + rewrite (proj2 (setSelectedWindow_buttons key w)). apply setSelectedWindow_rangeBox.
    + unfold applyCustomRange. destruct (_ || _); exact Hw.
    + unfold settle. destruct (pending w !! i) as [r |]; [| exact Hw].
      destruct o as [data | message]; [| exact Hw].
      destruct (handler r) as [key label |]; [exact Hw | split; reflexivity].
    + rewrite (proj2 (setSelectedWindow_buttons _ w)). apply setSelectedWindow_rangeBox.
    + unfold onMouseMove. destruct (decide _); exact Hw.
    + unfold onMouseLeave. destruct (decide _); exact Hw.
  - unfold boot. cbn zeta.
    rewrite (proj2 (setSelectedWindow_buttons _ _)). apply setSelectedWindow_rangeBox.
Qed.

Lemma run_invariant_possible (I : World -> Prop) (evs : list Event) (w : World) :
  (forall ev w, possible ev -> I w -> I (handle ev w)) ->
  Forall possible evs -> I w -> I (run evs w).
Proof.
  intros Hstep. revert w. induction evs as [| ev evs IH]; intros w Hevs Hw; [exact Hw |].
  inversion Hevs as [| ? ? Hev Hrest]; subst. cbn. apply IH; [exact Hrest |].
  now apply Hstep.
Qed.

Lemma windowKey_truthy (key : string) : key ∈ windowKeys -> truthy key = true.
Proof.
  intros Hk. apply list_elem_of_In in Hk. cbn in Hk.
  destruct Hk as [<- | [<- | [<- | [<- | [<- | [<- | [<- | []]]]]]]]; reflexivity.
Qed.

Lemma truthy_nonempty (s : string) : truthy s = true <-> s <> ""%string.
Proof.
  unfold truthy. rewrite negb_true_iff. apply String.eqb_neq.
Qed.

Lemma setSelectedWindow_wellKeyed (key : string) (w : World) :
  key ∈ windowKeys -> wellKeyed w -> wellKeyed (setSelectedWindow key w).
Proof.
  intros Hk (Hsel & Hreq & Hpend & Hcache).
  pose proof (proj2 (setSelectedWindow_buttons key w)) as Esel.
  unfold wellKeyed. rewrite Esel. clear Esel. unfold setSelectedWindow. cbn zeta.
  destruct (cache (state (setActiveButton key (on_state (set_selected key) w))) !! key)
    as [data |] eqn:Ec; [now repeat split |].
  destruct (String.eqb key "custom") eqn:Ek; [now repeat split |].
  apply String.eqb_neq in Ek.
  assert (Hr : pageRequest (mkRequest (uptimeQuery (Some key) None None None)
                              (OnWindow key (windowLabelOf key)))).
  { left. exists key. split; [exact Hk |]. split; [exact Ek |]. split; [| reflexivity].
    unfold uptimeQuery. now rewrite (windowKey_truthy key Hk). }
  split; [exact Hk |]. split; [| split]; cbn.
  - apply Forall_app. split; [exact Hreq | now constructor].
  - apply Forall_app. split; [exact Hpend | now constructor].
  - exact Hcache.
Qed.

Lemma applyCustomRange_wellKeyed (w : World) :
  wellKeyed w -> wellKeyed (applyCustomRange w).
Proof.
  intros (Hsel & Hreq & Hpend & Hcache). unfold applyCustomRange.
  destruct (truthy (startInput (elements w))) eqn:Es; [| now repeat split].
  destruct (truthy (endInput (elements w))) eqn:Ee; [| now repeat split].
  cbn [negb orb].
  assert (Hr : pageRequest
                 (mkRequest (uptimeQuery None (Some (startInput (elements w)))
                               (Some (endInput (elements w))) None) OnCustomRange)).
  { right. exists (startInput (elements w)), (endInput (elements w)).
    split; [now apply truthy_nonempty |]. split; [now apply truthy_nonempty |].
    split; [| reflexivity]. unfold uptimeQuery. now rewrite Es, Ee. }
  split; [exact Hsel |]. split; [| split]; cbn.
  - apply Forall_app. split; [exact Hreq | now constructor].
  - apply Forall_app. split; [exact Hpend | now constructor].
  - exact Hcache.
Qed.

Lemma settle_wellKeyed (i : nat) (o : Outcome) (w : World) :
  wellKeyed w -> wellKeyed (settle i o w).
Proof.
  intros (Hsel & Hreq & Hpend & Hcache). unfold settle.
  destruct (pending w !! i) as [r |] eqn:Er; [| now repeat split].
  pose proof (Forall_lookup_1 _ _ _ _ Hpend Er) as Hr.
  pose proof (Forall_delete _ _ i Hpend) as Hdel.
  destruct o as [data | message]; [| now repeat split].
  destruct (handler r) as [key label |] eqn:Eh; cbn.
  - split; [exact Hsel |]. split; [exact Hreq |]. split; [exact Hdel |].
    intros k Hk.
    change (cache (state _)) with (<[key:=data]> (cache (state w))) in Hk.
    apply lookup_insert_is_Some in Hk as [<- | [_ Hk]]; [| now apply Hcache].
    destruct Hr as [(key' & Hk' & _ & _ & Eh') | (? & ? & _ & _ & _ & Eh')];
      rewrite Eh in Eh'; [| discriminate].
    now injection Eh' as -> _.
  - split; [apply custom_is_window |]. split; [exact Hreq |]. split; [exact Hdel |].
    intros k Hk.
    change (cache (state _)) with (<["custom"%string:=data]> (cache (state w))) in Hk.
    apply lookup_insert_is_Some in Hk as [<- | [_ Hk]]; [| now apply Hcache].
    apply custom_is_window.
Qed.

Lemma handle_wellKeyed (ev : Event) (w : World) :
  possible ev -> wellKeyed w -> wellKeyed (handle ev w).
Proof.
  intros Hev Hw. destruct ev; cbn [handle]; try exact Hw.
  - apply setSelectedWindow_wellKeyed; [exact Hev | exact Hw].
  - now apply applyCustomRange_wellKeyed.
  - now apply settle_wellKeyed.
  - apply setSelectedWindow_wellKeyed; [exact (proj1 Hw) | exact Hw].
  - unfold onMouseMove. destruct (decide _); exact Hw.
  - unfold onMouseLeave. destruct (decide _); exact Hw.
Qed.

Lemma boot_wellKeyed (page : Elements) (weekAgo now : string) :
  wellKeyed (boot page weekAgo now).
Proof.
  unfold boot. apply setSelectedWindow_wellKeyed; [apply all_is_window |].
  split; [apply all_is_window |]. split; [constructor |]. split; [constructor |].
  intros key [d Hd]. cbn in Hd. now rewrite lookup_empty in Hd.
Qed.

(** X13.  Every request the page ever issues is of one of two shapes: the
    single parameter [window] with the key of a window button other than
    "custom", or the two parameters [start] and [end], both non-empty.  No
    request carries [granularity], and none asks for window "custom". *)
Theorem run_requests_well_formed (page : Elements) (weekAgo now : string)
    (evs : list Event) :
  Forall possible evs ->
  Forall pageRequest (requests (run evs (boot page weekAgo now))).
Proof.
  intros Hevs.
  apply (run_invariant_possible wellKeyed evs _ handle_wellKeyed Hevs
           (boot_wellKeyed page weekAgo now)).
Qed.

Lemma run_requests_well_formed_witness :
  Forall pageRequest
    (requests (run [Click "custom"; Apply; Click "1d"]
                 (boot blankPage "2024-01-01T00:00" "2024-01-08T00:00"))).
Proof.
  apply (run_requests_well_formed blankPage "2024-01-01T00:00" "2024-01-08T00:00"
           [Click "custom"; Apply; Click "1d"]).
  repeat constructor.
Defined.

(** X14.  The cache only ever holds entries under the seven window keys,
    so it never holds more than seven datasets. *)
Theorem run_cache_bounded (page : Elements) (weekAgo now : string)
    (evs : list Event) :
  Forall possible evs ->
  let w := run evs (boot page weekAgo now) in
  (forall key, is_Some (cache (state w) !! key) -> key ∈ windowKeys) /\
  (size (cache (state w)) <= 7)%nat.
Proof.
  intros Hevs w.
  assert (Hw : wellKeyed w).
  { apply (run_invariant_possible wellKeyed evs _ handle_wellKeyed Hevs
             (boot_wellKeyed page weekAgo now)). }
  destruct Hw as (_ & _ & _ & Hcache). split; [exact Hcache |].
  rewrite <- (size_dom (D := gset string)).
  transitivity (size (list_to_set (C := gset string) windowKeys)).
  - apply subseteq_size. intros key Hk.
    apply elem_of_list_to_set, Hcache. now apply elem_of_dom.
  - rewrite size_list_to_set; [reflexivity |].
    apply (bool_decide_unpack _). vm_compute. exact I.
Qed.

Lemma run_cache_bounded_witness :
  (size (cache (state (run [Settle 0 (Fulfilled scenarioData); Click "1d"]
                         (boot blankPage "2024-01-01T00:00" "2024-01-08T00:00"))))
   <= 7)%nat.
Proof.
  refine (proj2 (run_cache_bounded blankPage "2024-01-01T00:00" "2024-01-08T00:00"
                   [Settle 0 (Fulfilled scenarioData); Click "1d"] _)).
  repeat constructor.
Defined.

Lemma setSelectedWindow_cache (key : string) (w : World) :
  cache (state (setSelectedWindow key w)) = cache (state w).
Proof.
  unfold setSelectedWindow. cbn zeta.
  destruct (cache _ !! key) as [data |]; [reflexivity |].
  destruct (String.eqb key "custom"); reflexivity.
Qed.

(** X15.  Only a successful response writes the cache, and it writes one
    entry, the dataset received; no event ever removes an entry. *)
Theorem cache_written_only_on_success (ev : Event) (w : World) :
  (cache (state (handle ev w)) = cache (state w) \/
   exists i data key,
     ev = Settle i (Fulfilled data) /\
     cache (state (handle ev w)) = <[key:=data]> (cache (state w))) /\
  (forall key, is_Some (cache (state w) !! key) ->
               is_Some (cache (state (handle ev w)) !! key)).
Proof.
  assert (H : cache (state (handle ev w)) = cache (state w) \/
              exists i data key,
                ev = Settle i (Fulfilled data) /\
                cache (state (handle ev w)) = <[key:=data]> (cache (state w))).
  { destruct ev; cbn [handle]; try (left; reflexivity).
    - left. apply setSelectedWindow_cache.
    - left. unfold applyCustomRange. destruct (_ || _); reflexivity.
    - unfold settle. destruct (pending w !! i) as [r |]; [| left; reflexivity].
      destruct o as [data | message]; [| left; reflexivity].
      right. exists i, data.
      destruct (handler r) as [key label |];
        [exists key | exists "custom"%string]; split; reflexivity.
    - left. apply setSelectedWindow_cache.
    - left. unfold onMouseMove. destruct (decide _); reflexivity.
    - left. unfold onMouseLeave. destruct (decide _); reflexivity. }
  split; [exact H |].
  intros key Hk. destruct H as [-> | (i & data & key' & _ & ->)]; [exact Hk |].
  apply lookup_insert_is_Some. destruct (decide (key' = key)); [now left | now right].
Qed.

Lemma cache_written_only_on_success_witness :
  is_Some (cache (state (handle (Click "1d") demoWorld)) !! "all"%string).
Proof.
  apply (proj2 (cache_written_only_on_success (Click "1d") demoWorld) "all"%string).
  exists scenarioData. reflexivity.
Defined.

Lemma select_cached_effects (w : World) (key : string) (data : Dataset) :
  cache (state w) !! key = Some data ->
  pending (setSelectedWindow key w) = pending w /\
  cache (state (setSelectedWindow key w)) = cache (state w) /\
  chartData (state (setSelectedWindow key w)) = default [] (token_buckets data).
Proof.
  intros Hc. unfold setSelectedWindow. cbn. rewrite Hc. repeat split; reflexivity.
Qed.

Lemma setSelectedWindow_effects (key : string) (w : World) :
  (requests (setSelectedWindow key w) = requests w /\
   pending (setSelectedWindow key w) = pending w /\
   redraws (setSelectedWindow key w) = S (redraws w))
  \/
  (exists r, requests (setSelectedWindow key w) = requests w ++ [r] /\
             pending (setSelectedWindow key w) = pending w ++ [r] /\
             redraws (setSelectedWindow key w) = redraws w).
Proof.
  unfold setSelectedWindow. cbn zeta.
  destruct (cache _ !! key) as [data |]; [left; repeat split; reflexivity |].
  destruct (String.eqb key "custom"); [left; repeat split; reflexivity |].
  right. eexists. repeat split; reflexivity.
Qed.

(** X16.  One event issues at most one request and redraws at most once,
    and never both.  Pointer, resize and input events and arriving
    responses issue no request; editing an input draws nothing. *)
Theorem event_effects (ev : Event) (w : World) :
  let w' := handle ev w in
  ((requests w' = requests w /\ (redraws w <= redraws w' <= S (redraws w))%nat) \/
   (exists r, requests w' = requests w ++ [r] /\ redraws w' = redraws w)) /\
  match ev with
  | Click _ | Apply | Resync => True
  | EditStart _ | EditEnd _ => requests w' = requests w /\ redraws w' = redraws w
  | Settle _ _ | MouseMove _ _ | MouseLeave | Resize _ => requests w' = requests w
  end.
Proof.
  intros w'. subst w'. destruct ev; cbn [handle].
  - split; [| exact I].
    destruct (setSelectedWindow_effects key w) as [(-> & _ & ->) | (r & -> & _ & ->)];
      [left; split; [reflexivity | lia] | right; now exists r].
  - split; [| exact I]. unfold applyCustomRange.
    destruct (_ || _); [left; split; [reflexivity | lia] |].
    right. eexists. split; reflexivity.
  - split; [left; split; [reflexivity | cbn; lia] | split; reflexivity].
  - split; [left; split; [reflexivity | cbn; lia] | split; reflexivity].
  - unfold settle. destruct (pending w !! i) as [r |];
      [| split; [left; split; [reflexivity | lia] | reflexivity]].
    destruct o as [data | message];
      [| split; [left; split; [reflexivity | cbn; lia] | reflexivity]].
    destruct (handler r) as [key label |];
      (split; [left; split; [reflexivity | cbn; lia] | reflexivity]).
  - split; [| exact I].
    destruct (setSelectedWindow_effects (selected (state w)) w)
      as [(-> & _ & ->) | (r & -> & _ & ->)];
      [left; split; [reflexivity | lia] | right; now exists r].
  - unfold onMouseMove. destruct (decide _);
      (split; [left; split; [reflexivity | cbn; lia] | reflexivity]).
  - unfold onMouseLeave. destruct (decide _);
      (split; [left; split; [reflexivity | cbn; lia] | reflexivity]).
  - split; [left; split; [reflexivity | cbn; lia] | reflexivity].
Qed.

End RunFacts.

(** ** Selections and responses in sequence *)

Section SequenceFacts.










End SequenceFacts.

(** ** How many gridlines *)

Section TickCountFacts.

Lemma scale_pos_lt (a b P : Q) : 0 < P -> a * P < b * P -> a < b.
Proof. intros HP H. nra. Qed.

Lemma scale_pos_le (a b P : Q) : 0 < P -> a * P <= b * P -> a <= b.
Proof. intros HP H. nra. Qed.

Lemma tick_count_bounds (N t P k : Q) :
  0 < P ->
  (k = 1 /\ 1 <= t < 2 \/ k = 2 /\ 2 <= t < 5 \/ k = 5 /\ 5 <= t < 10) ->
  N * (k * P) <= 4 * (t * P) + k * P * 0.5 ->
  4 * (t * P) + k * P * 0.5 < (N + 1) * (k * P) ->
  3 < N /\ N < 11.
Proof.
  intros HP Hk H1 H2.
  destruct Hk as [[-> Ht] | [[-> Ht] | [-> Ht]]]; split;
    apply (scale_pos_lt _ _ P HP); nra.
Qed.

(** The loop of [getLinearTicks] for a positive maximum: [n + 1] ticks,
    [n] being the number of whole steps below the limit. *)
Lemma getLinearTicks_loop (m : Q) :
  0 < m ->
  exists (k : Q) (e : Z) (s : Q) (n : nat),
    tickStep (Some m) = Some s /\ s == k * 10 ^ e /\ 0 < s /\
    10 ^ e <= m / 4 < 10 ^ (e + 1) /\
    (k = 1 /\ m / 4 / 10 ^ e < 2 \/
     k = 2 /\ 2 <= m / 4 / 10 ^ e < 5 \/
     k = 5 /\ 5 <= m / 4 / 10 ^ e) /\
    inject_Z (Z.of_nat n) * s <= m + s * 0.5 /\
    m + s * 0.5 < (inject_Z (Z.of_nat n) + 1) * s /\
    length (getLinearTicks (Some m)) = S n.
Proof.
  intros Hm.
  destruct (tickStep_spec m Hm) as (k & e & s & Es & Hs & _ & He & Hk).
  pose proof (pow10_pos e) as Hpos.
  assert (Hk1 : 1 <= k) by (destruct Hk as [[-> _] | [[-> _] | [-> _]]]; discriminate).
  assert (Hs0 : 0 < s).
  { rewrite Hs. generalize dependent (10 ^ e). intros P; intros. nra. }
  set (L := m + s * 0.5).
  assert (Exs : L / s * s == L) by (field; lra).
  assert (Hx0 : 0 <= L / s) by (apply Qle_shift_div_l; [exact Hs0 | unfold L; lra]).
  set (n := Z.to_nat (Qfloor (L / s))).
  assert (Hn : inject_Z (Z.of_nat n) <= L / s /\ L / s < inject_Z (Z.of_nat n) + 1).
  { unfold n. rewrite Z2Nat.id.
    - split; [apply Qfloor_le |]. rewrite <- (inject_Z_plus _ 1). apply Qlt_floor.
    - change 0%Z with (Qfloor 0). now apply Qfloor_resp_le. }
  destruct (floor_multiple _ (L / s) s L Hs0 Exs (proj1 Hn) (proj2 Hn)) as [Hlo Hhi].
  exists k, e, s, n.
  split; [exact Es |]. split; [exact Hs |]. split; [exact Hs0 |].
  split; [exact He |]. split; [exact Hk |]. split; [exact Hlo |]. split; [exact Hhi |].
  assert (Eticks : getLinearTicks (Some m)
                   = ticksLoop (S (S n)) (Some L) (Some s) (Some 0)).
  { unfold getLinearTicks. rewrite (proj2 (Qle_bool_false m 0)) by exact Hm.
    cbn zeta. rewrite Es. cbn [Num.add Num.mul Num.lift2 Num.of_Q]. fold L.
    unfold ticksFuel. rewrite div_Some by lra. reflexivity. }
  rewrite Eticks.
  assert (HF : Forall2 isNum (ticksLoop (S (S n)) (Some L) (Some s) (Some 0))
                 (map (fun j => 0 + inject_Z (Z.of_nat j) * s) (seq 0 (S n)))).
  { apply ticksLoop_spec; [exact Hs0 | lia | lra | lra]. }
  rewrite (Forall2_length _ _ _ HF), length_map, length_seq. reflexivity.
Qed.

(** In exact arithmetic [getLinearTicks] returns between 5 and 11 ticks
    for every positive maximum. *)
Theorem getLinearTicks_count (maxTokens : Q) :
  0 < maxTokens ->
  (5 <= length (getLinearTicks (Some maxTokens)) <= 11)%nat.
Proof.
  intros Hm.
  destruct (getLinearTicks_loop maxTokens Hm)
    as (k & e & s & n & _ & Hs & Hs0 & He & Hk & Hlo & Hhi & ->).
  pose proof (pow10_pos e) as Hpos.
  rewrite pow10_succ in He.
  set (P := 10 ^ e) in *. clearbody P.
  set (t := maxTokens / 4 / P) in *.
  assert (Et : t * P == maxTokens / 4) by (unfold t; field; lra).
  assert (Em : maxTokens == 4 * (t * P)) by (rewrite Et; field).
  assert (Ht : 1 <= t < 10).
  { split; [apply (scale_pos_le _ _ P Hpos) | apply (scale_pos_lt _ _ P Hpos)]; lra. }
  clearbody t.
  assert (Hk' : k = 1 /\ 1 <= t < 2 \/ k = 2 /\ 2 <= t < 5 \/ k = 5 /\ 5 <= t < 10).
  { destruct Hk as [[-> H] | [[-> H] | [-> H]]];
      [left | right; left | right; right]; (split; [reflexivity | lra]). }
  rewrite Hs, Em in Hlo, Hhi.
  destruct (tick_count_bounds _ t P k Hpos Hk' Hlo Hhi) as [H3 H11].
  change 3 with (inject_Z 3) in H3. change 11 with (inject_Z 11) in H11.
  rewrite <- Zlt_Qlt in H3, H11. lia.
Qed.


Example ticks_eleven : length (getLinearTicks (Some 19.96)) = 11%nat.
Proof. vm_compute. reflexivity. Qed.

End TickCountFacts.

(** ** Gridline ticks within the range of doubles *)

Section Binary64Facts.

Lemma underflowBound_pos : 0 < Binary64.underflowBound.
Proof. reflexivity. Qed.

Lemma underflowBound_small : Binary64.underflowBound < 1 # 8.
Proof. vm_compute. reflexivity. Qed.

Lemma overflowBound_big : 16 < Binary64.overflowBound.
Proof. vm_compute. reflexivity. Qed.

Lemma safeLow_above_underflow : 80 * Binary64.underflowBound < Binary64.safeLow.
Proof. vm_compute. reflexivity. Qed.

Lemma safeHigh_below_overflow : 3 * Binary64.safeHigh < Binary64.overflowBound.
Proof. vm_compute. reflexivity. Qed.

Lemma safeLow_pos : 0 < Binary64.safeLow.
Proof. reflexivity. Qed.

(** A positive result within the range is kept as it is. *)
Lemma range_id (q : Q) :
  Binary64.underflowBound < q -> q < Binary64.overflowBound -> Binary64.range q = Binary64.Fin q.
Proof.
  intros Hlo Hhi. pose proof underflowBound_pos as HU. unfold Binary64.range.
  rewrite (proj2 (Qle_bool_false Binary64.overflowBound q)) by exact Hhi.
  rewrite (proj2 (Qle_bool_false q (- Binary64.overflowBound))) by lra.
  rewrite (proj2 (Qle_bool_false (Qabs q) Binary64.underflowBound)); [reflexivity |].
  rewrite Qabs_pos by lra. exact Hlo.
Qed.

Lemma range_zero (q : Q) : 0 <= q <= Binary64.underflowBound -> Binary64.range q = Binary64.Fin 0.
Proof.
  intros [H0 HU]. pose proof underflowBound_small as HS.
  pose proof overflowBound_big as HO. unfold Binary64.range.
  rewrite (proj2 (Qle_bool_false Binary64.overflowBound q)) by lra.
  rewrite (proj2 (Qle_bool_false q (- Binary64.overflowBound))) by lra.
  rewrite (proj2 (Qle_bool_iff (Qabs q) Binary64.underflowBound)); [reflexivity |].
  rewrite Qabs_pos by lra. exact HU.
Qed.

Lemma ticksLoop_done (fuel : nat) (limit step value : Binary64.dbl) :
  Binary64.leb value limit = false -> Binary64.ticksLoop fuel limit step value = Some [].
Proof. intros H. destruct fuel; cbn [Binary64.ticksLoop]; now rewrite H. Qed.

(** Against an infinite limit the loop test never fails. *)
Lemma ticksLoop_infinite_limit (step : Q) (fuel : nat) (value : Binary64.dbl) :
  0 < step ->
  value = Binary64.PosInf \/ (exists q, value = Binary64.Fin q /\ 0 <= q) ->
  Binary64.ticksLoop fuel Binary64.PosInf (Binary64.Fin step) value = None.
Proof.
  intros Hs. revert value. induction fuel as [| fuel IH]; intros value Hv.
  - destruct Hv as [-> | (q & -> & _)]; reflexivity.
  - assert (Hnext : Binary64.add value (Binary64.Fin step) = Binary64.PosInf
                    \/ exists q, Binary64.add value (Binary64.Fin step) = Binary64.Fin q /\ 0 <= q).
    { destruct Hv as [-> | (q & -> & Hq)]; [now left |].
      cbn [Binary64.add]. unfold Binary64.range.
      destruct (Qle_bool Binary64.overflowBound (q + step)); [now left |].
      pose proof overflowBound_big as HO.
      rewrite (proj2 (Qle_bool_false (q + step) (- Binary64.overflowBound))) by lra.
      destruct (Qle_bool _ Binary64.underflowBound); right; eexists; (split; [reflexivity | lra]). }
    cbn [Binary64.ticksLoop]. rewrite (IH _ Hnext).
    destruct Hv as [-> | (q & -> & _)]; reflexivity.
Qed.

(** At [Number.MAX_VALUE] the limit [maxTokens + step * 0.5] is +Infinity
    and the loop runs for ever. *)
Lemma getLinearTicks_at_MAX_VALUE (fuel : nat) :
  Binary64.tickStep (Binary64.Fin Binary64.MAX_VALUE) = Binary64.Fin (2 * 10 ^ 307) /\
  Binary64.add (Binary64.Fin Binary64.MAX_VALUE)
    (Binary64.mul (Binary64.tickStep (Binary64.Fin Binary64.MAX_VALUE)) (Binary64.Fin 0.5))
  = Binary64.PosInf /\
  Binary64.getLinearTicks fuel (Binary64.Fin Binary64.MAX_VALUE) = None.
Proof.
  assert (Es : Binary64.tickStep (Binary64.Fin Binary64.MAX_VALUE)
               = Binary64.Fin (2 * 10 ^ 307)) by (vm_compute; reflexivity).
  assert (El : Binary64.add (Binary64.Fin Binary64.MAX_VALUE)
                 (Binary64.mul (Binary64.tickStep (Binary64.Fin Binary64.MAX_VALUE))
                    (Binary64.Fin 0.5)) = Binary64.PosInf) by (vm_compute; reflexivity).
  split; [exact Es |]. split; [exact El |].
  unfold Binary64.getLinearTicks.
  replace (negb (Binary64.isFinite (Binary64.Fin Binary64.MAX_VALUE))
           || Binary64.leb (Binary64.Fin Binary64.MAX_VALUE) (Binary64.Fin 0))
    with false by (vm_compute; reflexivity).
  cbn zeta. rewrite El, Es.
  apply ticksLoop_infinite_limit; [reflexivity |].
  right. exists 0. split; [reflexivity | lra].
Qed.

(** When [maxTokens / 4] underflows, [roughStep || 1] makes the step 1 and
    0 is the only tick. *)
Lemma getLinearTicks_underflow (m : Q) (fuel : nat) :
  0 < m -> m / 4 <= Binary64.underflowBound ->
  Binary64.tickStep (Binary64.Fin m) = Binary64.Fin 1 /\
  Binary64.getLinearTicks (S fuel) (Binary64.Fin m) = Some [Binary64.Fin 0].
Proof.
  intros Hm Hu.
  pose proof underflowBound_small as HS. pose proof underflowBound_pos as HU.
  pose proof overflowBound_big as HO.
  assert (Hr : 0 <= m / 4) by (apply Qle_shift_div_l; [reflexivity | lra]).
  assert (Em : m / 4 * 4 == m) by field.
  assert (Es : Binary64.tickStep (Binary64.Fin m) = Binary64.Fin 1).
  { unfold Binary64.tickStep. cbn [Binary64.div].
    change (Qeq_bool 4 0) with false. cbn iota.
    rewrite (range_zero (m / 4)) by (split; assumption).
    vm_compute. reflexivity. }
  split; [exact Es |].
  unfold Binary64.getLinearTicks. cbn [Binary64.isFinite negb orb Binary64.leb].
  rewrite (proj2 (Qle_bool_false m 0)) by exact Hm.
  cbn zeta. rewrite Es. cbn [Binary64.mul Binary64.add].
  rewrite (range_id (1 * 0.5)) by (split; lra || lra).
  cbn [Binary64.add]. rewrite (range_id (m + 1 * 0.5)) by lra.
  cbn [Binary64.ticksLoop Binary64.leb].
  rewrite (proj2 (Qle_bool_iff 0 (m + 1 * 0.5))) by lra.
  cbn [Binary64.add]. rewrite (range_id (0 + 1)) by lra.
  rewrite ticksLoop_done; [reflexivity |].
  cbn [Binary64.leb]. apply Qle_bool_false. lra.
Qed.

(** Inside the safe range the step is the same in the two models. *)
Lemma tickStep_in_range (m : Q) :
  Binary64.safeLow <= m <= Binary64.safeHigh ->
  exists s : Q,
    tickStep (Some m) = Some s /\
    Binary64.tickStep (Binary64.Fin m) = Binary64.Fin s /\
    m < 40 * s /\ 4 * s <= 5 * m.
Proof.
  intros [Hlo Hhi].
  pose proof underflowBound_pos as HU. pose proof safeLow_above_underflow as HL.
  pose proof safeHigh_below_overflow as HH. pose proof safeLow_pos as HL0.
  assert (Hm : 0 < m) by lra.
  assert (Er : m / 4 * 4 == m) by field.
  assert (Hr : 0 < m / 4) by lra.
  destruct (floorLog10_spec (m / 4) Hr) as [HPlo HPhi].
  rewrite pow10_succ in HPhi.
  pose proof (pow10_pos (floorLog10 (m / 4))) as HP.
  set (P := 10 ^ floorLog10 (m / 4)) in *.
  assert (Et : m / 4 / P * P == m / 4) by (field; lra).
  assert (Ht : 1 <= m / 4 / P /\ m / 4 / P < 10).
  { split; [apply (scale_pos_le _ _ P HP) | apply (scale_pos_lt _ _ P HP)]; lra. }
  assert (Eq : tickStep (Some m)
               = if Qle_bool 5 (m / 4 / P) then Some (5 * P)
                 else if Qle_bool 2 (m / 4 / P) then Some (2 * P) else Some P).
  { unfold tickStep. cbn [Num.div Num.of_Q]. change (Qeq_bool 4 0) with false. cbn iota.
    unfold orElse. rewrite (proj2 (Qeq_bool_false (m / 4) 0)) by lra.
    unfold magnitudeOf. rewrite (proj2 (Qlt_bool_iff 0 (m / 4))) by exact Hr.
    fold P. rewrite !div_Some by lra.
    unfold Num.geb, Num.leb, Num.cmp, Num.of_Q, Num.mul, Num.lift2.
    destruct (Qle_bool 5 _); [reflexivity |]. destruct (Qle_bool 2 _); reflexivity. }
  assert (Ed : Binary64.tickStep (Binary64.Fin m)
               = if Qle_bool 5 (m / 4 / P) then Binary64.range (5 * P)
                 else if Qle_bool 2 (m / 4 / P) then Binary64.range (2 * P)
                 else Binary64.Fin P).
  { unfold Binary64.tickStep. cbn [Binary64.div]. change (Qeq_bool 4 0) with false.
    cbn iota. rewrite (range_id (m / 4)) by lra.
    unfold Binary64.orElse. rewrite (proj2 (Qeq_bool_false (m / 4) 0)) by lra.
    unfold Binary64.magnitudeOf. rewrite (proj2 (Qlt_bool_iff 0 (m / 4))) by exact Hr.
    fold P. rewrite (range_id P) by lra.
    cbn [Binary64.div]. rewrite (proj2 (Qeq_bool_false P 0)) by lra.
    pose proof underflowBound_small as HS'. pose proof overflowBound_big as HO'.
    rewrite (range_id (m / 4 / P)) by lra.
    unfold Binary64.geb. cbn [Binary64.leb Binary64.mul]. reflexivity. }
  rewrite Eq, Ed.
  destruct (Qle_bool 5 (m / 4 / P)); [| destruct (Qle_bool 2 (m / 4 / P))].
  - exists (5 * P). rewrite (range_id (5 * P)) by lra. repeat split; lra.
  - exists (2 * P). rewrite (range_id (2 * P)) by lra. repeat split; lra.
  - exists P. repeat split; lra.
Qed.

(** Inside the range of doubles the loop gives the same ticks in the two
    models, once the fuel covers them. *)
Lemma ticksLoop_in_range (limit step : Q) (n : nat) :
  Binary64.underflowBound < step -> limit + step < Binary64.overflowBound ->
  forall (fuelD fuelQ : nat) (value : Q),
    (n < fuelD)%nat -> (S n < fuelQ)%nat -> 0 <= value ->
    value + inject_Z (Z.of_nat n) * step <= limit ->
    limit < value + (inject_Z (Z.of_nat n) + 1) * step ->
    Binary64.ticksLoop fuelD (Binary64.Fin limit) (Binary64.Fin step) (Binary64.Fin value)
    = Some (map Binary64.ofNum (ticksLoop fuelQ (Some limit) (Some step) (Some value))).
Proof.
  intros Hs HO. pose proof underflowBound_pos as HU.
  induction n as [| n IH]; intros fuelD fuelQ value HfD HfQ Hv Hlo Hhi.
  - destruct fuelD as [| fuelD]; [lia |]. destruct fuelQ as [| [| fuelQ]]; [lia | lia |].
    change (inject_Z (Z.of_nat 0)) with 0 in Hlo, Hhi.
    cbn [Binary64.ticksLoop Binary64.leb Binary64.add ticksLoop Num.leb Num.cmp
           Num.add Num.lift2].
    rewrite (proj2 (Qle_bool_iff value limit)) by lra.
    rewrite (proj2 (Qle_bool_false (value + step) limit)) by lra.
    rewrite (range_id (value + step)) by lra.
    rewrite ticksLoop_done; [reflexivity |].
    cbn [Binary64.leb]. apply Qle_bool_false. lra.
  - destruct fuelD as [| fuelD]; [lia |]. destruct fuelQ as [| fuelQ]; [lia |].
    rewrite inject_nat_succ in Hlo, Hhi.
    assert (H0 : 0 <= inject_Z (Z.of_nat n)) by (rewrite <- (Zle_Qle 0); lia).
    assert (Hns : 0 <= inject_Z (Z.of_nat n) * step) by nra.
    cbn [Binary64.ticksLoop Binary64.leb Binary64.add ticksLoop Num.leb Num.cmp
           Num.add Num.lift2].
    rewrite (proj2 (Qle_bool_iff value limit)) by lra.
    rewrite (range_id (value + step)) by lra.
    rewrite (IH fuelD fuelQ (value + step)) by (lia || lra).
    reflexivity.
Qed.

(** The loop of the exact model, with the number of its steps. *)
Lemma getLinearTicks_unfolded (m : Q) :
  0 < m ->
  exists (s : Q) (n : nat),
    tickStep (Some m) = Some s /\ 0 < s /\
    inject_Z (Z.of_nat n) * s <= m + s * 0.5 /\
    m + s * 0.5 < (inject_Z (Z.of_nat n) + 1) * s /\
    getLinearTicks (Some m)
    = ticksLoop (S (S n)) (Some (m + s * 0.5)) (Some s) (Some 0) /\
    (n <= 10)%nat.
Proof.
  intros Hm.
  destruct (tickStep_spec m Hm) as (k & e & s & Es & Hs & _ & He & Hk).
  pose proof (pow10_pos e) as Hpos.
  assert (Hk1 : 1 <= k) by (destruct Hk as [[-> _] | [[-> _] | [-> _]]]; discriminate).
  assert (Hs0 : 0 < s).
  { rewrite Hs. generalize dependent (10 ^ e). intros P; intros. nra. }
  set (L := m + s * 0.5).
  assert (Exs : L / s * s == L) by (field; lra).
  assert (Hx0 : 0 <= L / s) by (apply Qle_shift_div_l; [exact Hs0 | unfold L; lra]).
  set (n := Z.to_nat (Qfloor (L / s))).
  assert (Hn : inject_Z (Z.of_nat n) <= L / s /\ L / s < inject_Z (Z.of_nat n) + 1).
  { unfold n. rewrite Z2Nat.id.
    - split; [apply Qfloor_le |]. rewrite <- (inject_Z_plus _ 1). apply Qlt_floor.
    - change 0%Z with (Qfloor 0). now apply Qfloor_resp_le. }
  destruct (floor_multiple _ (L / s) s L Hs0 Exs (proj1 Hn) (proj2 Hn)) as [Hlo Hhi].
  assert (Eticks : getLinearTicks (Some m)
                   = ticksLoop (S (S n)) (Some L) (Some s) (Some 0)).
  { unfold getLinearTicks. rewrite (proj2 (Qle_bool_false m 0)) by exact Hm.
    cbn zeta. rewrite Es. cbn [Num.add Num.mul Num.lift2 Num.of_Q]. fold L.
    unfold ticksFuel. rewrite div_Some by lra. reflexivity. }
  exists s, n.
  split; [exact Es |]. split; [exact Hs0 |]. split; [exact Hlo |]. split; [exact Hhi |].
  split; [exact Eticks |].
  assert (HF : Forall2 isNum (ticksLoop (S (S n)) (Some L) (Some s) (Some 0))
                 (map (fun j => 0 + inject_Z (Z.of_nat j) * s) (seq 0 (S n)))).
  { apply ticksLoop_spec; [exact Hs0 | lia | lra | lra]. }
  pose proof (getLinearTicks_count m Hm) as Hcount.
  rewrite Eticks, (Forall2_length _ _ _ HF), length_map, length_seq in Hcount. lia.
Qed.

(** Inside the safe range, with fuel for eleven ticks, the function
    returns the ticks of the exact model. *)
Lemma getLinearTicks_in_range (m : Q) (fuel : nat) :
  Binary64.safeLow <= m <= Binary64.safeHigh -> (11 <= fuel)%nat ->
  Binary64.getLinearTicks fuel (Binary64.Fin m)
  = Some (map Binary64.ofNum (getLinearTicks (Some m))).
Proof.
  intros Hsafe Hfuel.
  pose proof underflowBound_pos as HU. pose proof safeLow_above_underflow as HL.
  pose proof safeHigh_below_overflow as HH. pose proof safeLow_pos as HL0.
  assert (Hm : 0 < m) by lra.
  destruct (tickStep_in_range m Hsafe) as (s & Es & Ed & Hslo & Hshi).
  destruct (getLinearTicks_unfolded m Hm) as (s' & n & Es' & Hs0 & Hlo & Hhi & Eticks & Hn).
  rewrite Es in Es'. injection Es' as <-.
  rewrite Eticks.
  unfold Binary64.getLinearTicks. cbn [Binary64.isFinite negb orb Binary64.leb].
  rewrite (proj2 (Qle_bool_false m 0)) by exact Hm.
  cbn zeta. rewrite Ed. cbn [Binary64.mul Binary64.add].
  rewrite (range_id (s * 0.5)) by lra.
  cbn [Binary64.add]. rewrite (range_id (m + s * 0.5)) by lra.
  apply (ticksLoop_in_range (m + s * 0.5) s n); try lia; lra.
Qed.

Lemma Forall2_isFin_ofNum (l : list num) (qs : list Q) :
  Forall2 isNum l qs -> Forall2 Binary64.isFin (map Binary64.ofNum l) qs.
Proof.
  induction 1 as [| a q l qs (x & -> & Hx) _ IH]; [constructor |].
  cbn. constructor; [now exists x | exact IH].
Qed.

Lemma ticks_lookup_fin (ticks : list Binary64.dbl) (f : nat -> Q) (n : nat) :
  Forall2 Binary64.isFin ticks (map f (seq 0 (S n))) ->
  length ticks = S n /\
  (forall i, (i <= n)%nat ->
     exists x, ticks !! i = Some (Binary64.Fin x) /\ x == f i) /\
  (forall i a, ticks !! i = Some a ->
     (i <= n)%nat /\ exists x, a = Binary64.Fin x /\ x == f i).
Proof.
  intros H.
  assert (Hlen : length ticks = S n).
  { rewrite (Forall2_length _ _ _ H), length_map, length_seq. reflexivity. }
  assert (Hf : forall i, (i <= n)%nat -> map f (seq 0 (S n)) !! i = Some (f i)).
  { intros i Hi. change (map f (seq 0 (S n))) with (f <$> seq 0 (S n)).
    rewrite list_lookup_fmap, lookup_seq_lt by lia. reflexivity. }
  split; [exact Hlen |]. split.
  - intros i Hi. destruct (Forall2_lookup_r _ _ _ i _ H (Hf i Hi)) as (a & Ha & x & -> & Hx).
    exists x. split; [exact Ha | exact Hx].
  - intros i a Ha. assert (Hi : (i <= n)%nat).
    { apply lookup_lt_Some in Ha. lia. }
    split; [exact Hi |].
    destruct (Forall2_lookup_r _ _ _ i _ H (Hf i Hi)) as (a' & Ha' & x & -> & Hx).
    pose proof (eq_trans (eq_sym Ha) Ha') as E. injection E as ->.
    exists x. split; [reflexivity | exact Hx].
Qed.




(** X20.  For every maximum between 2^-1060 and 2^1022, where no
    intermediate result leaves the range of doubles, [getLinearTicks]
    returns, rounding aside, between 5 and 11 ticks, and eleven loop
    iterations are enough. *)
Theorem getLinearTicks_count_in_range (maxTokens : Q) (fuel : nat) :
  Binary64.safeLow <= maxTokens <= Binary64.safeHigh -> (11 <= fuel)%nat ->
  exists ticks : list Binary64.dbl,
    Binary64.getLinearTicks fuel (Binary64.Fin maxTokens) = Some ticks /\
    (5 <= length ticks <= 11)%nat.
Proof.
  intros Hsafe Hfuel. pose proof safeLow_pos as HL0.
  exists (map Binary64.ofNum (getLinearTicks (Some maxTokens))).
  split; [now apply getLinearTicks_in_range |].
  rewrite length_map. apply getLinearTicks_count. lra.
Qed.

Lemma getLinearTicks_count_in_range_witness :
  exists ticks : list Binary64.dbl,
    Binary64.getLinearTicks 11 (Binary64.Fin 19.96) = Some ticks /\
    (5 <= length ticks <= 11)%nat.
Proof.
  apply (getLinearTicks_count_in_range 19.96 11); [split; discriminate | lia].
Defined.

End Binary64Facts.
